(** * PokemonShowdownBot: team balance predicate, team builder and battle
      message handler, embedded from [commands.py] and
      [plugins/battling/battleHandler.py]. *)

From Stdlib Require Import QArith Ascii.
From stdpp Require Import base option list strings gmap pretty.

Local Open Scope string_scope.

(** ** Python exceptions and fallible computations *)

Inductive exn : Set :=
| KeyError
| IndexError
| ValueError
| TypeError
| AttributeError.

Inductive result (A : Type) : Type :=
| Ok (a : A)
| Raise (e : exn).
Arguments Ok {A} a.
Arguments Raise {A} e.

#[global] Instance result_ret : MRet result := λ A a, Ok a.
#[global] Instance result_bind : MBind result := λ A B f m,
  match m with
  | Ok a => f a
  | Raise e => Raise e
  end.

(** [d[k]] on a dict: a missing key raises [KeyError]. *)
Definition getitem {V : Type} (d : gmap string V) (k : string) : result V :=
  match d !! k with
  | Some v => Ok v
  | None => Raise KeyError
  end.

(** A loop [for x in xs: acc = body(acc, x)] whose body may raise. *)
Fixpoint for_each {A S : Type} (body : S → A → result S) (xs : list A) (acc : S)
  : result S :=
  match xs with
  | [] => Ok acc
  | x :: xs' => acc' ← body acc x; for_each body xs' acc'
  end.

(** ** Python string operations used by the sources *)

Module PyStr.

(** [s.startswith(p)] *)
Fixpoint startswith (p s : string) : bool :=
  match p, s with
  | EmptyString, _ => true
  | String a p', String b s' => if Ascii.eqb a b then startswith p' s' else false
  | String _ _, EmptyString => false
  end.

(** [sub in s] *)
Fixpoint contains (sub s : string) : bool :=
  startswith sub s ||
  match s with
  | EmptyString => false
  | String _ s' => contains sub s'
  end.

(** [s.split(sep)] for a one-character separator: [cur] holds the
    characters of the field being read, in reverse. *)
Fixpoint split_go (sep : Ascii.ascii) (cur : string) (s : string) : list string :=
  match s with
  | EmptyString => [String.rev cur]
  | String c s' =>
      if Ascii.eqb c sep then String.rev cur :: split_go sep EmptyString s'
      else split_go sep (String c cur) s'
  end.

Definition split (sep : Ascii.ascii) (s : string) : list string :=
  split_go sep EmptyString s.

(** Length of the match of [-(?:Mega(?:-(X|Y))?|Primal)] at the start of
    [s], if any.  The optional group is greedy. *)
Definition form_suffix_match (s : string) : option nat :=
  if startswith "-Mega-X" s then Some 7%nat
  else if startswith "-Mega-Y" s then Some 7%nat
  else if startswith "-Mega" s then Some 5%nat
  else if startswith "-Primal" s then Some 7%nat
  else None.

(** [re.sub('-(?:Mega(?:-(X|Y))?|Primal)', '', s)]: every match, scanning
    from the left, is deleted.  [skip] counts the characters of the current
    match that are still to be dropped. *)
Fixpoint strip_forms_go (skip : nat) (s : string) : string :=
  match s with
  | EmptyString => EmptyString
  | String c s' =>
      match skip with
      | S k => strip_forms_go k s'
      | O =>
          match form_suffix_match s with
          | Some n => strip_forms_go (Nat.pred n) s'
          | None => String c (strip_forms_go O s')
          end
      end
  end.

Definition strip_forms (s : string) : string := strip_forms_go 0 s.

End PyStr.

(** ** [acceptableWeakness] (commands.py) *)

Definition Qlt_bool (x y : Q) : bool := negb (Qle_bool y x).

(** An entry of [data.pokedex.Pokedex]; only the ['types'] field is read. *)
Record dex_entry : Type := DexEntry { types : list string }.

(** The per-matchup counters [{'weak': _, 'res': _}]. *)
Record tally : Set := Tally { weak : nat; res : nat }.

Definition add_weak (c : tally) : tally := Tally (S (weak c)) (res c).
Definition add_res (c : tally) : tally := Tally (weak c) (S (res c)).

Section Weakness.

(** [data.types.Types]: the multiplier table, read as
    [Types[own type][matchup]], and [data.pokedex.Pokedex].  Both modules
    are data of the repository that the functions import; they are taken as
    parameters.  Multipliers are rationals: the table's values 0, 1/2, 1
    and 2 and their products are exact in floating point too. *)
Variable Types : gmap string (gmap string Q).
Variable Pokedex : gmap string dex_entry.

(** [for t in Types]: the keys of the table. *)
Definition type_names : list string := elements (dom Types).

(** [Types[ty][matchup]] *)
Definition multiplier (ty matchup : string) : result Q :=
  row ← getitem Types ty; getitem row matchup.

(** [comp[matchup]['weak'] += 1] / [comp[matchup]['res'] += 1] *)
Definition bump (f : tally → tally) (matchup : string)
    (comp : gmap string tally) : result (gmap string tally) :=
  c ← getitem comp matchup; Ok (<[matchup := f c]> comp).

Definition count_eff (eff : Q) (matchup : string) (comp : gmap string tally)
  : result (gmap string tally) :=
  if Qlt_bool 1 eff then bump add_weak matchup comp
  else if Qlt_bool eff 1 then bump add_res matchup comp
  else Ok comp.

(** The body of [for poke in team]. *)
Definition tally_poke (comp : gmap string tally) (poke : string)
  : result (gmap string tally) :=
  e ← getitem Pokedex poke;
  match types e with
  | t0 :: t1 :: _ =>
      for_each (λ comp matchup,
        a ← multiplier t0 matchup;
        b ← multiplier t1 matchup;
        count_eff (a * b)%Q matchup comp) type_names comp
  | tys =>
      for_each (λ comp matchup,
        t0 ← match tys with t0 :: _ => Ok t0 | [] => Raise IndexError end;
        a ← multiplier t0 matchup;
        count_eff a matchup comp) type_names comp
  end.

(** The closing loop [for t in comp], with its two early returns. *)
Fixpoint verdict (ts : list string) (comp : gmap string tally) : result bool :=
  match ts with
  | [] => Ok true
  | t :: ts' =>
      c ← getitem comp t;
      if (3 <=? weak c)%nat then Ok false
      else if (2 <=? weak c)%nat && (res c <=? 1)%nat then Ok false
      else verdict ts' comp
  end.

Definition acceptableWeakness (team : gset string) : result bool :=
  if decide (team = ∅) then Ok false
  else
    let comp0 : gmap string tally := gset_to_gmap (Tally 0 0) (dom Types) in
    comp ← for_each tally_poke (elements team) comp0;
    verdict (elements (dom comp)) comp.

End Weakness.

(** ** The random source *)

(** [random.randint(lo, hi)] is [randrange(lo, hi + 1)]: it raises
    [ValueError] on an empty range and otherwise returns
    [lo + randbelow(hi - lo + 1)], both ends included.  [raw] is the number
    supplied by the random source; [randbelow n] is [raw mod n], which takes
    every value of [0 .. n-1] as [raw] varies. *)
Definition randint (lo hi : Z) (raw : nat) : result Z :=
  if (hi <? lo)%Z then Raise ValueError
  else Ok (lo + Z.of_nat raw `mod` (hi - lo + 1))%Z.

(** [xs[k]] on a list, for an index that may be negative. *)
Definition list_index {A : Type} (xs : list A) (k : Z) : result A :=
  let n := Z.of_nat (length xs) in
  let k' := if (k <? 0)%Z then (k + n)%Z else k in
  if (k' <? 0)%Z then Raise IndexError
  else match xs !! Z.to_nat k' with
       | Some x => Ok x
       | None => Raise IndexError
       end.

(** ** The team command (commands.py, [Command], branch [cmd in ...team]) *)

(** How the loop was left: by its own exit, or through the fill that starts
    when [attempts] reaches 100. *)
Inductive exit_path : Set := NormalPath | FallbackPath.

(** Outcome of running a loop against a finite prefix of the random source:
    [Pending] means the loop was still running when the prefix ended. *)
Inductive run (A : Type) : Type :=
| Returned (a : A)
| Raised (e : exn)
| Pending.
Arguments Returned {A} a.
Arguments Raised {A} e.
Arguments Pending {A}.

Definition TEAM_SIZE : nat := 6.
Definition MAX_ATTEMPTS : nat := 100.

Section TeamBuilder.

Variable Types : gmap string (gmap string Q).
Variable Pokedex : gmap string dex_entry.

(** [tiers[cmd.replace('team','poke')]], as the list [list(...)] makes of it. *)
Variable pool : list string.

(** [list(pool)[randint(0, len(pool) - 1)]] *)
Definition draw (raw : nat) : result string :=
  k ← randint 0 (Z.of_nat (length pool) - 1) raw; list_index pool k.

(** [[p for p in team if '-Mega' in p]] is non-empty. *)
Definition has_mega (team : gset string) : bool :=
  existsb (PyStr.contains "-Mega") (elements team).

(** The inner [while len(team) < 6: team |= {draw}]. *)
Fixpoint fill (team : gset string) (rnd : list nat) : run (gset string) :=
  if decide (size team < TEAM_SIZE)%nat then
    match rnd with
    | [] => Pending
    | raw :: rnd' =>
        match draw raw with
        | Raise e => Raised e
        | Ok poke => fill (team ∪ {[poke]}) rnd'
        end
    end
  else Returned team.

(** The loop condition [len(team) < 6 or not acceptableWeakness(team)]. *)
Definition keep_going (team : gset string) : result bool :=
  if decide (size team < TEAM_SIZE)%nat then Ok true
  else acc ← acceptableWeakness Types Pokedex team; Ok (negb acc).

(** The outer [while] loop; every iteration draws once. *)
Fixpoint build_loop (team : gset string) (attempts : nat) (rnd : list nat)
  : run (gset string * exit_path) :=
  match keep_going team with
  | Raise e => Raised e
  | Ok false => Returned (team, NormalPath)
  | Ok true =>
      match rnd with
      | [] => Pending
      | raw :: rnd' =>
          match draw raw with
          | Raise e => Raised e
          | Ok poke =>
              if bool_decide (PyStr.strip_forms poke ∈ team) then
                build_loop team attempts rnd'
              else if has_mega team && PyStr.contains "-Mega" poke then
                build_loop team attempts rnd'
              else
                let team1 := team ∪ {[poke]} in
                match acceptableWeakness Types Pokedex team1 with
                | Raise e => Raised e
                | Ok acc =>
                    let team2 := if acc then team1 else team1 ∖ {[poke]} in
                    if decide (TEAM_SIZE ≤ size team2)%nat then
                      Returned (team2, NormalPath)
                    else if decide (MAX_ATTEMPTS ≤ S attempts)%nat then
                      match fill team2 rnd' with
                      | Returned t => Returned (t, FallbackPath)
                      | Raised e => Raised e
                      | Pending => Pending
                      end
                    else build_loop team2 (S attempts) rnd'
                end
          end
      end
  end.

(** [team = set(); attempts = 0; while ...] *)
Definition build_team (rnd : list nat) : run (gset string * exit_path) :=
  build_loop ∅ 0 rnd.

(** The reply [' / '.join(list(team)), True]. *)
Definition team_reply (rnd : list nat) : run (string * bool) :=
  match build_team rnd with
  | Returned (team, _) => Returned (String.concat " / " (elements team), true)
  | Raised e => Raised e
  | Pending => Pending
  end.

End TeamBuilder.

(** ** Decoded JSON payloads and the Python operations applied to them *)

Unset Elimination Schemes.
Inductive json : Type :=
| JNull
| JBool (b : bool)
| JNum (n : Z)
| JFloat (q : Q)
| JStr (s : string)
| JArr (l : list json)
| JObj (kv : list (string * json)).
Set Elimination Schemes.

Module PyVal.

Definition chars (s : string) : list json :=
  (λ c, JStr (String c EmptyString)) <$> String.list_ascii_of_string s.

Fixpoint assoc (k : string) (kv : list (string * json)) : option json :=
  match kv with
  | [] => None
  | (k', v) :: kv' => if decide (k' = k) then Some v else assoc k kv'
  end.

Definition is_str (k : string) (v : json) : bool :=
  match v with
  | JStr s => bool_decide (s = k)
  | _ => false
  end.

(** [k in v] for a string [k] *)
Definition contains (k : string) (v : json) : result bool :=
  match v with
  | JObj kv => Ok (bool_decide (is_Some (assoc k kv)))
  | JArr l => Ok (existsb (is_str k) l)
  | JStr s => Ok (PyStr.contains k s)
  | _ => Raise TypeError
  end.

(** [v[k]] for a string [k] *)
Definition subscript (v : json) (k : string) : result json :=
  match v with
  | JObj kv =>
      match assoc k kv with
      | Some x => Ok x
      | None => Raise KeyError
      end
  | _ => Raise TypeError
  end.

(** [for x in v] *)
Definition iter (v : json) : result (list json) :=
  match v with
  | JArr l => Ok l
  | JObj kv => Ok ((λ p, JStr p.1) <$> kv)
  | JStr s => Ok (chars s)
  | _ => Raise TypeError
  end.

(** [v[k]] for an integer [k] *)
Definition index (v : json) (k : Z) : result json :=
  match v with
  | JArr l => list_index l k
  | JStr s => list_index (chars s) k
  | JObj _ => Raise KeyError
  | _ => Raise TypeError
  end.

End PyVal.

(** ** The battle state (plugins.battling.battle) *)

Module Pokemon.
(** Modelled from the spec: class [Pokemon] of plugins/battling/battle.py is
    not among the sources; the record keeps the nine constructor arguments
    of [Pokemon(...)] in battleHandler.py, as the spec's "Pokemon entity". *)
Record t : Type := Make {
  species : string;
  details : json;
  condition : json;
  active : json;
  stats : json;
  moves : json;
  baseAbility : json;
  item : json;
  canMegaEvo : json
}.
End Pokemon.

Module Side.
(** Modelled from the spec: the player class of plugins/battling/battle.py
    is not among the sources.  A "Side Roster": player identifier, display
    name, Pokemon entities keyed by species descriptor, and a non-owning
    reference to the active one (a key into [team], so that an update in
    place is seen through it). *)
Record t : Type := Make {
  id : string;
  name : string;
  team : gmap string Pokemon.t;
  active : option string
}.

(** Modelled from the spec: the roster of a new session, with no identity
    bound, no entity and no active Pokemon. *)
Definition empty : t := Make "" "" ∅ None.

(** Modelled from the spec: [updateTeam], "create-or-update the
    corresponding entity". *)
Definition updateTeam (p : Pokemon.t) (s : t) : t :=
  Make (id s) (name s) (<[Pokemon.species p := p]> (team s)) (active s).

(** Modelled from the spec: [getPokemon], "the entity matching the
    switched-in species", none when the roster has no such entity. *)
Definition getPokemon (sp : string) (s : t) : option string :=
  if bool_decide (sp ∈ dom (team s)) then Some sp else None.

(** Modelled from the spec: [setActive], "update that side's active
    reference". *)
Definition setActive (r : option string) (s : t) : t :=
  Make (id s) (name s) (team s) r.

(** [side.active] dereferenced. *)
Definition active_pokemon (s : t) : option Pokemon.t :=
  k ← active s; team s !! k.
End Side.

Module Battle.
(** Modelled from the spec: class [Battle] of plugins/battling/battle.py is
    not among the sources.  A "Battle Session": its key, the two rosters and
    the outstanding request id. *)
Record t : Type := Make {
  key : string;
  me : Side.t;
  other : Side.t;
  rqid : json
}.

(** Modelled from the spec: [Battle(battle)], a session in state Created,
    with empty rosters and no request id yet. *)
Definition new (battle : string) : t := Make battle Side.empty Side.empty JNull.

(** Modelled from the spec: [setMe(name, id)], "bind the own Side Roster's
    identity". *)
Definition setMe (name id : string) (b : t) : t :=
  Make (key b)
       (Side.Make id name (Side.team (me b)) (Side.active (me b)))
       (other b) (rqid b).

(** Modelled from the spec: [setOther(name, id)], "bind the opponent Side
    Roster's identity". *)
Definition setOther (name id : string) (b : t) : t :=
  Make (key b) (me b)
       (Side.Make id name (Side.team (other b)) (Side.active (other b)))
       (rqid b).

Definition with_me (f : Side.t → Side.t) (b : t) : t :=
  Make (key b) (f (me b)) (other b) (rqid b).
Definition with_other (f : Side.t → Side.t) (b : t) : t :=
  Make (key b) (me b) (f (other b)) (rqid b).
Definition with_rqid (r : json) (b : t) : t :=
  Make (key b) (me b) (other b) r.
End Battle.

(** ** [BattleHandler] (plugins/battling/battleHandler.py) *)

(** The handler object: [botName], the session table [activeBattles], and the
    lines passed to [ws.send] so far, oldest first. *)
Record handler : Type := Handler {
  botName : string;
  activeBattles : gmap string Battle.t;
  sent : list string
}.

(** A method of the handler: it reads and updates the handler and either
    returns or raises; the handler keeps what was done before a raise. *)
Record M (A : Type) : Type := MkM { runM : handler → result A * handler }.
Arguments MkM {A} _.
Arguments runM {A} _ _.

#[global] Instance M_ret : MRet M := λ A a, MkM (λ h, (Ok a, h)).
#[global] Instance M_bind : MBind M := λ A B f m,
  MkM (λ h, match runM m h with
            | (Ok a, h') => runM (f a) h'
            | (Raise e, h') => (Raise e, h')
            end).

Definition get_handler : M handler := MkM (λ h, (Ok h, h)).
Definition lift {A : Type} (r : result A) : M A := MkM (λ h, (r, h)).
Definition ws_send (line : string) : M unit :=
  MkM (λ h, (Ok (), Handler (botName h) (activeBattles h) (sent h ++ [line]))).

(** [self.activeBattles[battle]] *)
Definition session (battle : string) : M Battle.t :=
  h ← get_handler; lift (getitem (activeBattles h) battle).

(** [self.activeBattles[battle] = b], also the write-back of an update made
    through the reference [self.activeBattles[battle]]. *)
Definition set_session (battle : string) (b : Battle.t) : M unit :=
  MkM (λ h, (Ok (), Handler (botName h) (<[battle := b]> (activeBattles h)) (sent h))).

(** [for x in xs: body(x)] inside a method. *)
Fixpoint for_each_M {A : Type} (body : A → M unit) (xs : list A) : M unit :=
  match xs with
  | [] => mret ()
  | x :: xs' => body x;; for_each_M body xs'
  end.

Section Handler.

(** [json.loads] and the rendering of a value by [str.format]. *)
Variable json_loads : string → result json.
Variable py_format : json → string.

Definition respond (battle msg : string) : M unit :=
  ws_send (battle ++ "|" ++ msg).

(** [details.split(',')[0]]; [details] comes from the payload. *)
Definition getSpecies (details : json) : result string :=
  match details with
  | JStr s => list_index (PyStr.split ","%char s) 0
  | _ => Raise AttributeError
  end.

(** [Pokemon(self.getSpecies(poke['details']), poke['details'], ...)] *)
Definition read_pokemon (poke : json) : result Pokemon.t :=
  d ← PyVal.subscript poke "details";
  sp ← getSpecies d;
  d' ← PyVal.subscript poke "details";
  c ← PyVal.subscript poke "condition";
  a ← PyVal.subscript poke "active";
  st ← PyVal.subscript poke "stats";
  mv ← PyVal.subscript poke "moves";
  ab ← PyVal.subscript poke "baseAbility";
  it ← PyVal.subscript poke "item";
  mg ← PyVal.subscript poke "canMegaEvo";
  Ok (Pokemon.Make sp d' c a st mv ab it mg).

Definition on_init (battle : string) : M unit :=
  set_session battle (Battle.new battle);;
  respond battle "/timer".

Definition on_request (battle : string) (msg : list string) : M unit :=
  payload ← lift (list_index msg 2);
  request ← lift (json_loads payload);
  has_rqid ← lift (PyVal.contains "rqid" request);
  (if has_rqid : bool then
     r ← lift (PyVal.subscript request "rqid");
     b ← session battle;
     set_session battle (Battle.with_rqid r b)
   else mret ());;
  sidedata ← lift (PyVal.subscript request "side");
  pokes ← lift (l ← PyVal.subscript sidedata "pokemon"; PyVal.iter l);
  for_each_M (λ poke,
    b ← session battle;
    p ← lift (read_pokemon poke);
    set_session battle (Battle.with_me (Side.updateTeam p) b)) pokes.

Definition on_poke (battle : string) (msg : list string) : M unit :=
  b ← session battle;
  _ ← lift (list_index msg 2);
  mret ().

Definition on_player (battle : string) (msg : list string) : M unit :=
  who ← lift (list_index msg 3);
  h ← get_handler;
  b ← session battle;
  who' ← lift (list_index msg 3);
  side ← lift (list_index msg 2);
  if decide (who = botName h) then set_session battle (Battle.setMe who' side b)
  else set_session battle (Battle.setOther who' side b).

Definition on_teampreview (raw : nat) (battle : string) : M unit :=
  nr ← lift (randint 0 6 raw);
  b ← session battle;
  respond battle ("/team " ++ pretty nr ++ "|" ++ py_format (Battle.rqid b)).

Definition on_turn (raw : nat) (battle : string) : M unit :=
  b ← session battle;
  a ← lift (match Side.active_pokemon (Battle.me b) with
            | Some a => Ok a
            | None => Raise AttributeError
            end);
  k ← lift (randint 0 3 raw);
  move ← lift (PyVal.index (Pokemon.moves a) k);
  b' ← session battle;
  respond battle
    ("/choose move " ++ py_format move ++ "|" ++ py_format (Battle.rqid b')).

Definition on_switch (battle : string) (msg : list string) : M unit :=
  btl ← session battle;
  who ← lift (list_index msg 2);
  det ← lift (list_index msg 3);
  sp ← lift (getSpecies (JStr det));
  if PyStr.startswith (Side.id (Battle.me btl)) who then
    set_session battle
      (Battle.with_me (λ s, Side.setActive (Side.getPokemon sp s) s) btl)
  else
    set_session battle
      (Battle.with_other (λ s, Side.setActive (Side.getPokemon sp s) s) btl).

Definition on_end (battle : string) (msg : list string) : M unit :=
  winner ← lift (list_index msg 2);
  h ← get_handler;
  (if decide (winner = botName h) then respond battle "O-oh, I won? Sorry :("
   else respond battle "It's okay, you're better than me :>");;
  respond battle "/leave".

(** [BattleHandler.parse(battle, msg)]; [raw] is what the random source
    supplies to the one [randint] call a message can reach. *)
Definition parse (raw : nat) (battle msg : string) : M unit :=
  if decide (msg = "") then mret ()
  else
    h ← get_handler;
    if bool_decide (battle ∈ dom (activeBattles h)) && PyStr.contains "init" msg
    then mret ()
    else
      let msg := PyStr.split "|"%char msg in
      tag ← lift (list_index msg 1);
      is_init ← (if decide (tag = "init")
                 then f2 ← lift (list_index msg 2); mret (bool_decide (f2 = "battle"))
                 else mret false);
      if is_init : bool then on_init battle
      else if decide (tag = "request") then on_request battle msg
      else if decide (tag = "poke") then on_poke battle msg
      else if decide (tag = "player") then on_player battle msg
      else if decide (tag = "teampreview") then on_teampreview raw battle
      else if decide (tag = "turn") then on_turn raw battle
      else if decide (tag = "switch") then on_switch battle msg
      else if bool_decide (tag ∈ ["win"; "tie"]) then on_end battle msg
      else mret ().

(** Handling a sequence of lines for one battle key, one draw per line,
    stopping at the first raise. *)
Fixpoint parse_all (battle : string) (lines : list (nat * string)) : M unit :=
  match lines with
  | [] => mret ()
  | (raw, msg) :: rest => parse raw battle msg;; parse_all battle rest
  end.

End Handler.

(** ** A concrete catalogue for running the definitions *)

Module Sample.

Definition type_list : list string :=
  ["Normal"; "Fire"; "Water"; "Electric"; "Grass"; "Ice"; "Fighting";
   "Poison"; "Ground"; "Flying"; "Psychic"; "Bug"; "Rock"; "Ghost";
   "Dragon"; "Dark"; "Steel"; "Fairy"].

(** One row [Types[ty]]: the matchups that double, halve and cancel the
    damage taken; every other matchup is 1. *)
Definition row (double half zero : list string) : gmap string Q :=
  list_to_map
    ((λ t, (t, if bool_decide (t ∈ double) then 2%Q
               else if bool_decide (t ∈ half) then (1 # 2)%Q
               else if bool_decide (t ∈ zero) then 0%Q
               else 1%Q)) <$> type_list).

Definition Types : gmap string (gmap string Q) :=
  list_to_map
    [("Normal", row ["Fighting"] [] ["Ghost"]);
     ("Fire", row ["Water"; "Ground"; "Rock"]
                  ["Fire"; "Grass"; "Ice"; "Bug"; "Steel"; "Fairy"] []);
     ("Water", row ["Electric"; "Grass"] ["Fire"; "Water"; "Ice"; "Steel"] []);
     ("Electric", row ["Ground"] ["Electric"; "Flying"; "Steel"] []);
     ("Grass", row ["Fire"; "Ice"; "Poison"; "Flying"; "Bug"]
                   ["Water"; "Electric"; "Grass"; "Ground"] []);
     ("Ice", row ["Fire"; "Fighting"; "Rock"; "Steel"] ["Ice"] []);
     ("Fighting", row ["Flying"; "Psychic"; "Fairy"] ["Bug"; "Rock"; "Dark"] []);
     ("Poison", row ["Ground"; "Psychic"]
                    ["Grass"; "Fighting"; "Poison"; "Bug"; "Fairy"] []);
     ("Ground", row ["Water"; "Grass"; "Ice"] ["Poison"; "Rock"] ["Electric"]);
     ("Flying", row ["Electric"; "Ice"; "Rock"]
                    ["Grass"; "Fighting"; "Bug"] ["Ground"]);
     ("Psychic", row ["Bug"; "Ghost"; "Dark"] ["Fighting"; "Psychic"] []);
     ("Bug", row ["Fire"; "Flying"; "Rock"] ["Grass"; "Fighting"; "Ground"] []);
     ("Rock", row ["Water"; "Grass"; "Fighting"; "Ground"; "Steel"]
                  ["Normal"; "Fire"; "Poison"; "Flying"] []);
     ("Ghost", row ["Ghost"; "Dark"] ["Poison"; "Bug"] ["Normal"; "Fighting"]);
     ("Dragon", row ["Ice"; "Dragon"; "Fairy"]
                    ["Fire"; "Water"; "Electric"; "Grass"] []);
     ("Dark", row ["Fighting"; "Bug"; "Fairy"] ["Ghost"; "Dark"] ["Psychic"]);
     ("Steel", row ["Fire"; "Fighting"; "Ground"]
                   ["Normal"; "Grass"; "Ice"; "Flying"; "Psychic"; "Bug";
                    "Rock"; "Dragon"; "Steel"; "Fairy"] ["Poison"]);
     ("Fairy", row ["Poison"; "Steel"] ["Fighting"; "Bug"; "Dark"] ["Dragon"])].

Definition Pokedex : gmap string dex_entry :=
  list_to_map
    [("Charizard", DexEntry ["Fire"; "Flying"]);
     ("Charizard-Mega-X", DexEntry ["Fire"; "Dragon"]);
     ("Charizard-Mega-Y", DexEntry ["Fire"; "Flying"]);
     ("Venusaur", DexEntry ["Grass"; "Poison"]);
     ("Venusaur-Mega", DexEntry ["Grass"; "Poison"]);
     ("Blastoise", DexEntry ["Water"]);
     ("Pikachu", DexEntry ["Electric"]);
     ("Gengar", DexEntry ["Ghost"; "Poison"]);
     ("Skarmory", DexEntry ["Steel"; "Flying"]);
     ("Swampert", DexEntry ["Water"; "Ground"]);
     ("Ferrothorn", DexEntry ["Grass"; "Steel"]);
     ("Clefable", DexEntry ["Fairy"]);
     ("Garchomp", DexEntry ["Dragon"; "Ground"]);
     ("Tyranitar", DexEntry ["Rock"; "Dark"]);
     ("Groudon", DexEntry ["Ground"]);
     ("Groudon-Primal", DexEntry ["Ground"; "Fire"]);
     ("Kyogre", DexEntry ["Water"]);
     ("Kyogre-Primal", DexEntry ["Water"]);
     ("Houndoom", DexEntry ["Dark"; "Fire"]);
     ("Houndoom-Mega", DexEntry ["Dark"; "Fire"]);
     ("Arcanine", DexEntry ["Fire"]);
     ("Ninetales", DexEntry ["Fire"]);
     ("Rapidash", DexEntry ["Fire"])].

End Sample.

(** ** Vocabulary for the statements about the handler *)

Definition fields (msg : string) : list string := PyStr.split "|"%char msg.

(** The message-type tag [msg[1]]. *)
Definition tag_of (msg : string) : result string := list_index (fields msg) 1.

(** The line passes the test ['init' == msg[1] and 'battle' == msg[2]]. *)
Definition is_init_battle (msg : string) : Prop :=
  list_index (fields msg) 1 = Ok "init" ∧ list_index (fields msg) 2 = Ok "battle".

(** The key has a session in [activeBattles]. *)
Definition tracked (battle : string) (h : handler) : Prop :=
  battle ∈ dom (activeBattles h).

(** The closing remark chosen by [msg[2] == self.botName]. *)
Definition closing_remark (h : handler) (winner : string) : string :=
  if decide (winner = botName h) then "O-oh, I won? Sorry :("
  else "It's okay, you're better than me :>".

(** The handler after sending [lines], everything else as in [h]. *)
Definition after_sending (h : handler) (lines : list string) : handler :=
  Handler (botName h) (activeBattles h) (sent h ++ lines).

(** ** A battle scenario for running the handler *)

Module Scenario.

Definition dq : string := String (Ascii.ascii_of_nat 34) EmptyString.
Definition quoted (s : string) : string := dq ++ s ++ dq.

(** The payload of a [request] line: request id 42 and a side with one
    Pokemon, details [Pikachu, L50], whose move list is [thunderbolt]. *)
Definition pikachu_payload : string :=
  "{" ++ quoted "rqid" ++ ":" ++ quoted "42" ++ "," ++ quoted "side" ++ ":{"
  ++ quoted "pokemon" ++ ":[{" ++ quoted "details" ++ ":" ++ quoted "Pikachu, L50"
  ++ "," ++ quoted "condition" ++ ":" ++ quoted "100/100"
  ++ "," ++ quoted "active" ++ ":true," ++ quoted "stats" ++ ":{},"
  ++ quoted "moves" ++ ":[" ++ quoted "thunderbolt" ++ "],"
  ++ quoted "baseAbility" ++ ":" ++ quoted "static" ++ ","
  ++ quoted "item" ++ ":" ++ quoted "" ++ ","
  ++ quoted "canMegaEvo" ++ ":false}]}}".

Definition pikachu_request : json :=
  JObj [("rqid", JStr "42");
        ("side", JObj [("pokemon", JArr [JObj [
           ("details", JStr "Pikachu, L50");
           ("condition", JStr "100/100");
           ("active", JBool true);
           ("stats", JObj []);
           ("moves", JArr [JStr "thunderbolt"]);
           ("baseAbility", JStr "static");
           ("item", JStr "");
           ("canMegaEvo", JBool false)]])])].

(** [json.loads] on the one payload of the scenario. *)
Definition json_loads (s : string) : result json :=
  if decide (s = pikachu_payload) then Ok pikachu_request else Raise ValueError.

(** [str.format] on scalars, the only values the scenario renders. *)
Definition py_format (v : json) : string :=
  match v with
  | JStr s => s
  | JNum n => pretty n
  | JBool true => "True"
  | JBool false => "False"
  | JNull => "None"
  | _ => ""
  end.

Definition start : handler := Handler "BotName" ∅ [].

Definition opening : list (nat * string) :=
  [(0, "|init|battle");
   (0, "|player|p1|BotName");
   (0, "|request|" ++ pikachu_payload);
   (0, "|switch|p1a: Pikachu|Pikachu, L50|100/100")]%nat.

(** The handler once the opening lines of battle [room1] are handled. *)
Definition ready : handler :=
  (runM (parse_all json_loads py_format "room1" opening) start).2.

Definition pikachu : Pokemon.t :=
  Pokemon.Make "Pikachu" (JStr "Pikachu, L50") (JStr "100/100") (JBool true)
    (JObj []) (JArr [JStr "thunderbolt"]) (JStr "static") (JStr "") (JBool false).

End Scenario.

(** ** The statements of the specification that the code does not meet,
       written out so that they can be refuted *)

(** "After a [win] or [tie] line for a tracked key the two closing lines are
    sent and the session is removed from the table." *)
Definition end_removes_session : Prop :=
  ∀ (json_loads : string → result json) (py_format : json → string)
    (raw : nat) (battle msg : string) (h : handler) (t winner : string),
    tracked battle h →
    tag_of msg = Ok t → t ∈ ["win"; "tie"] →
    list_index (fields msg) 2 = Ok winner →
    let out := runM (parse json_loads py_format raw battle msg) h in
    out.1 = Ok () ∧
    sent out.2 = sent (after_sending h [battle ++ "|" ++ closing_remark h winner;
                                        battle ++ "|/leave"]) ∧
    activeBattles out.2 !! battle = None.

(** "A line that is not [init battle], for a key without a session, is a
    no-op: nothing changes, nothing is sent, nothing is raised." *)
Definition unknown_session_is_noop : Prop :=
  ∀ (json_loads : string → result json) (py_format : json → string)
    (raw : nat) (battle msg : string) (h : handler),
    ¬ tracked battle h →
    ¬ is_init_battle msg →
    runM (parse json_loads py_format raw battle msg) h = (Ok (), h).

(** ** The acceptability predicate in the words of the specification *)

Section Acceptable.

Variable Types : gmap string (gmap string Q).
Variable Pokedex : gmap string dex_entry.

(** The product of the table's multipliers of a member's one or two types
    versus the attacking type [t]. *)
Definition effectiveness (poke t : string) : option Q :=
  e ← Pokedex !! poke;
  match types e with
  | [t0] => row ← Types !! t0; row !! t
  | [t0; t1] =>
      r0 ← Types !! t0; a ← r0 !! t;
      r1 ← Types !! t1; b ← r1 !! t;
      Some (a * b)%Q
  | _ => None
  end.

(** Weak: the product is above 1.  Resistant: it is below 1. *)
Definition is_weak (t poke : string) : bool :=
  match effectiveness poke t with
  | Some e => Qlt_bool 1 e
  | None => false
  end.

Definition is_resistant (t poke : string) : bool :=
  match effectiveness poke t with
  | Some e => Qlt_bool e 1
  | None => false
  end.

Definition count (f : string → bool) (ps : list string) : nat :=
  length (filter (λ p, f p = true) ps).

Definition weak_count (t : string) (team : gset string) : nat :=
  count (is_weak t) (elements team).

Definition resistant_count (t : string) (team : gset string) : nat :=
  count (is_resistant t) (elements team).

Definition acceptable (team : gset string) : Prop :=
  team ≠ ∅ ∧
  ∀ t, t ∈ dom Types →
    (weak_count t team < 3)%nat ∧
    ¬ (2 ≤ weak_count t team ∧ resistant_count t team ≤ 1)%nat.

(** The invariants of the catalogue and of the table for the members of a
    team: each member is in the Pokedex with one or two types, and each of
    these types has a row with a multiplier for every type of the table. *)
Definition catalogued (team : gset string) : Prop :=
  ∀ p, p ∈ team →
    ∃ e, Pokedex !! p = Some e ∧
         (length (types e) = 1 ∨ length (types e) = 2)%nat ∧
         ∀ ty, ty ∈ types e →
           ∃ row, Types !! ty = Some row ∧
                  ∀ t, t ∈ dom Types → is_Some (row !! t).

(** [catalogued], as a check that can be run. *)
Definition cataloguedb (team : gset string) : bool :=
  forallb (λ p,
    match Pokedex !! p with
    | Some e =>
        ((length (types e) =? 1)%nat || (length (types e) =? 2)%nat) &&
        forallb (λ ty,
          match Types !! ty with
          | Some row =>
              forallb (λ t, bool_decide (is_Some (row !! t))) (type_names Types)
          | None => false
          end) (types e)
    | None => false
    end) (elements team).

End Acceptable.

(** One step of the counters for a member whose product is [e]. *)
Definition step_tally (e : Q) (c : tally) : tally :=
  if Qlt_bool 1 e then add_weak c
  else if Qlt_bool e 1 then add_res c
  else c.

(** The two tests of the closing loop, on one pair of counters. *)
Definition balanced (c : tally) : Prop :=
  (weak c < 3)%nat ∧ ¬ (2 ≤ weak c ∧ res c ≤ 1)%nat.

(** ** Vocabulary for the statements about the team command *)

(** The descriptor carries a mega or primal marker. *)
Definition has_form_marker (p : string) : bool :=
  PyStr.contains "-Mega" p || PyStr.contains "-Primal" p.

(** No two members have the same base species. *)
Definition distinct_base_species (team : gset string) : Prop :=
  ∀ p q, p ∈ team → q ∈ team →
    PyStr.strip_forms p = PyStr.strip_forms q → p = q.

(** At most one member satisfies [f]. *)
Definition at_most_one (f : string → bool) (team : gset string) : Prop :=
  ∀ p q, p ∈ team → q ∈ team → f p = true → f q = true → p = q.

(** What the loop keeps true of [team] as long as it has not started the
    fill: the team is empty or passes [acceptableWeakness]. *)
Definition empty_or_acceptable (Types : gmap string (gmap string Q))
    (Pokedex : gmap string dex_entry) (team : gset string) : Prop :=
  team = ∅ ∨ acceptableWeakness Types Pokedex team = Ok true.

(** "Every team the command returns, on either path, has distinct base
    species and at most one member with a mega or primal marker." *)
Definition builder_teams_unique : Prop :=
  ∀ (Types : gmap string (gmap string Q)) (Pokedex : gmap string dex_entry)
    (pool : list string) (rnd : list nat) (team : gset string) (path : exit_path),
    build_team Types Pokedex pool rnd = Returned (team, path) →
    distinct_base_species team ∧ at_most_one has_form_marker team.

Module Runs.

(** A pool and a sequence of draws that complete a team on the normal
    path. *)
Definition mixed_pool : list string :=
  ["Charizard-Mega-X"; "Charizard"; "Swampert"; "Ferrothorn"; "Clefable";
   "Gengar"; "Skarmory"; "Garchomp"; "Tyranitar"; "Groudon-Primal";
   "Pikachu"; "Blastoise"; "Venusaur"].

Definition mixed_draws : list nat := [0; 2; 3; 1; 4; 6]%nat.

(** A pool and draws that complete a team with two primal forms and a
    mega form on the normal path. *)
Definition primal_pool : list string :=
  ["Groudon-Primal"; "Kyogre-Primal"; "Venusaur-Mega"; "Skarmory";
   "Clefable"; "Swampert"].

Definition primal_draws : list nat := [0; 1; 2; 3; 4; 5]%nat.

(** A pool of Fire types: a second member always fails the balance test,
    so the first draw and 99 failed ones make 100 attempts and the fill
    completes the team. *)
Definition fire_pool : list string :=
  ["Charizard-Mega-X"; "Charizard-Mega-Y"; "Houndoom-Mega"; "Arcanine";
   "Ninetales"; "Rapidash"].

Definition fire_draws : list nat :=
  (3 :: replicate 99 4 ++ [0; 1; 2; 4; 5])%list%nat.

End Runs.

(** ** Vocabulary for the effects of a handler method *)

(** The method leaves the bot name and every session but that of [battle]
    as they are, and does not remove the session of [battle]. *)
Definition confined (battle : string) {A : Type} (m : M A) : Prop :=
  ∀ h,
    botName (runM m h).2 = botName h ∧
    (∀ other, other ≠ battle →
       activeBattles (runM m h).2 !! other = activeBattles h !! other) ∧
    (tracked battle h → tracked battle (runM m h).2).

(** The method sends nothing. *)
Definition silent {A : Type} (m : M A) : Prop :=
  ∀ h, sent (runM m h).2 = sent h.

(** The method keeps the lines sent so far and adds at most [n] lines, each
    addressed to the room [battle]. *)
Definition emits (battle : string) (n : nat) {A : Type} (m : M A) : Prop :=
  ∀ h, ∃ new,
    sent (runM m h).2 = (sent h ++ new)%list ∧
    (length new ≤ n)%nat ∧
    Forall (λ line, PyStr.startswith (battle ++ "|") line = true) new.

(** The method returns on every handler. *)
Definition returns {A : Type} (m : M A) : Prop :=
  ∀ h, ∃ a, (runM m h).1 = Ok a.

(** When the method raises, it has sent nothing. *)
Definition raises_before_sending {A : Type} (m : M A) : Prop :=
  ∀ h e, (runM m h).1 = Raise e → sent (runM m h).2 = sent h.

(** The characters of [s] before the first [sep]. *)
Fixpoint upto (sep : Ascii.ascii) (s : string) : string :=
  match s with
  | EmptyString => EmptyString
  | String c s' => if Ascii.eqb c sep then EmptyString else String c (upto sep s')
  end.

(** ** More Python string operations *)

Module PyStr2.

(** [lo <= c <= hi] on character codes, as a range of a regular expression
  reads it. *)
Definition in_range (lo hi c : Ascii.ascii) : bool :=
(Ascii.nat_of_ascii lo <=? Ascii.nat_of_ascii c)%nat &&
(Ascii.nat_of_ascii c <=? Ascii.nat_of_ascii hi)%nat.

(** The characters of [s] that satisfy [f], in order. *)
Fixpoint keep (f : Ascii.ascii → bool) (s : string) : string :=
match s with
| EmptyString => EmptyString
| String c s' => if f c then String c (keep f s') else keep f s'
end.

(** [str.lower] on one character of the ASCII range. *)
Definition lower_char (c : Ascii.ascii) : Ascii.ascii :=
if in_range "A" "Z" c then Ascii.ascii_of_nat (Ascii.nat_of_ascii c + 32) else c.

(** [s.lower()], for the strings of ASCII characters it is applied to here. *)
Fixpoint lower (s : string) : string :=
match s with
| EmptyString => EmptyString
| String c s' => String (lower_char c) (lower s')
end.

(** [s.replace(' ', '')] *)
Definition remove_spaces (s : string) : string :=
keep (λ c, negb (Ascii.eqb c " ")) s.

(** [sep.join(xs)] *)
Fixpoint join (sep : string) (xs : list string) : string :=
match xs with
| [] => EmptyString
| [x] => x
| x :: xs' => x ++ sep ++ join sep xs'
end.

(** No character of [s] is [c]. *)
Fixpoint free_of (c : Ascii.ascii) (s : string) : bool :=
match s with
| EmptyString => true
| String a s' => negb (Ascii.eqb a c) && free_of c s'
end.

End PyStr2.

(** ** [PokemonShowdownBot] (robot.py) *)

Module Robot.

(** The character class [a-zA-z0-9,] of [toId]; the range [A-z] is the one
  the source writes, and holds the six characters between [Z] and [a]
  too. *)
Definition id_char (c : Ascii.ascii) : bool :=
PyStr2.in_range "a" "z" c || PyStr2.in_range "A" "z" c ||
PyStr2.in_range "0" "9" c || Ascii.eqb c ",".

(** [toId(thing)]: [re.sub(r'[^a-zA-z0-9,]', '', thing).lower()] *)
Definition toId (thing : string) : string :=
PyStr2.lower (PyStr2.keep id_char thing).

(** [escapeText(line)] *)
Definition escapeText (line : string) : string :=
match line with
| EmptyString => line
| String c _ =>
    if Ascii.eqb c "/" then "/" ++ line
    else if Ascii.eqb c "!" then " " ++ line
    else line
end.

(** [removeSpaces(text)] *)
Definition removeSpaces (text : string) : string := PyStr2.remove_spaces text.

(** The line feed character. *)
Definition LF : Ascii.ascii := Ascii.ascii_of_nat 10.

Section Bot.

(** The class [Room] is not among the sources; a room object is kept as it
is. *)
Variable Room : Type.

(** The bot: its [owner] id, the [rooms] it is in, and the lines passed to
[ws.send] so far, oldest first. *)
Record bot : Type := Bot {
owner : string;
rooms : gmap string Room;
outbox : list string
}.

(** [send(msg)] *)
Definition send (msg : string) (b : bot) : bot :=
Bot (owner b) (rooms b) (outbox b ++ [msg]).

(** [say(room, msg)] *)
Definition say (room msg : string) (b : bot) : bot :=
if PyStr.contains (String LF EmptyString) msg then
foldl (λ b m, send (room ++ "|" ++ m) b) b (PyStr.split LF msg)
else send (room ++ "|" ++ msg) b.

(** [sendPm(user, msg)] *)
Definition sendPm (user msg : string) (b : bot) : bot :=
if PyStr.contains (String LF EmptyString) msg then
foldl (λ b m, send ("|/pm " ++ user ++ ", " ++ m) b) b (PyStr.split LF msg)
else send ("|/pm " ++ user ++ ", " ++ msg) b.

(** [reply(room, user, response, samePlace)]; [user_id] is [user.id]. *)
Definition reply (room user_id response : string) (samePlace : bool) (b : bot) : bot :=
if samePlace then say room response b else sendPm user_id response b.

(** [leaveRoom(room)]; the line printed on failure is not kept. *)
Definition leaveRoom (room : string) (b : bot) : bool * bot :=
if bool_decide (room ∈ dom (rooms b)) then
let b1 := send ("|/leave " ++ room) b in
(true, Bot (owner b1) (delete room (rooms b1)) (outbox b1))
else (false, b).

(** [isOwner(name)] *)
Definition isOwner (name : string) (b : bot) : bool :=
bool_decide (owner b = toId name).

(** The branch [cmd == 'leave'] of [Command] (commands.py). *)
Definition Command_leave (msg : string) (b : bot) : (string * bool) * bot :=
let msg := PyStr2.remove_spaces msg in
let '(ok, b') := leaveRoom msg b in
if ok then (("Leaving room " ++ msg ++ " succeeded", false), b')
else (("Could not leave room: " ++ msg, false), b').

End Bot.

End Robot.

(** ** More of commands.py *)

(** The branch [cmd == 'pick'] of [Command]. *)
Definition Command_pick (msg : string) (raw : nat) : result (string * bool) :=
  let options := PyStr.split ","%char msg in
  k ← randint 0 (Z.of_nat (length options) - 1) raw;
  o ← list_index options k;
  Ok (o, true).

(** What the rank checks read of [self]: [details['master']] and the table
    [Groups] of rank values. *)
Record ranks : Type := Ranks {
  master : string;
  Groups : gmap string Z
}.

(** [user['name'] == self.details['master'] or
     self.Groups[user['group']] >= self.Groups[rank]]: the shape shared by the
    four checks. *)
Definition rank_check (rank : string) (self : ranks) (user : gmap string string)
  : result bool :=
  n ← getitem user "name";
  if decide (n = master self) then Ok true
  else
    g ← getitem user "group";
    have ← getitem (Groups self) g;
    need ← getitem (Groups self) rank;
    Ok (need <=? have)%Z.

Definition canSee : ranks → gmap string string → result bool := rank_check "%".
Definition canChange : ranks → gmap string string → result bool := rank_check "#".
Definition canAddUser : ranks → gmap string string → result bool := rank_check "~".
Definition canStartGame : ranks → gmap string string → result bool := rank_check "@".

(** A table of rank values for running the rank checks. *)
Definition sample_ranks : ranks :=
  Ranks "Quite Quiet"
        (list_to_map [(" ", 0%Z); ("+", 1%Z); ("%", 2%Z); ("@", 3%Z);
                      ("#", 5%Z); ("~", 6%Z)]).




(** ** [MessageDatabase] (plugins/messages.py) *)

Module Messages.

(** class [Message] *)
Record Message : Type := Msg { sent : string; msg : string }.

(** [replyFormat()] *)
Definition replyFormat (m : Message) : string :=
"From " ++ sent m ++ ": " ++ msg m.

Section Database.

(** Points in time, and [datetime(2015, 1, 1)]. *)
Variable Time : Type.
Variable epoch : Time.

Record MessageDatabase : Type := Db {
messages : gmap string (gmap string Message);
lastNotification : gmap string Time
}.

(** [MessageDatabase()] *)
Definition empty : MessageDatabase := Db ∅ ∅.

(** [hasMessage(user)] *)
Definition hasMessage (user : string) (db : MessageDatabase) : bool :=
bool_decide (user ∈ dom (messages db)).

(** [alreadySentMessage(user, frm)] *)
Definition alreadySentMessage (user frm : string) (db : MessageDatabase) : bool :=
match messages db !! user with
| Some inbox => bool_decide (frm ∈ dom inbox)
| None => false
end.

(** [addMessage(to, sent, msg)]: the test for a waiting message reads the
inbox at [sent] as given, the message is stored at the key
[re.sub(r'[^a-zA-z0-9,]', '', sent).lower()], which is [toId(sent)]. *)
Definition addMessage (to sent msg : string) (db : MessageDatabase)
: bool * MessageDatabase :=
let messages1 :=
if bool_decide (to ∈ dom (messages db)) then messages db
else <[to := ∅]> (messages db) in
let last1 :=
if bool_decide (to ∈ dom (lastNotification db)) then lastNotification db
else <[to := epoch]> (lastNotification db) in
let inbox := default ∅ (messages1 !! to) in
if bool_decide (sent ∈ dom inbox) then (false, Db messages1 last1)
else (true, Db (<[to := <[Robot.toId sent := Msg sent msg]> inbox]> messages1) last1).

(** [removeMessage(to, frm)] *)
Definition removeMessage (to frm : string) (db : MessageDatabase)
: result (option Message * MessageDatabase) :=
inbox ← getitem (messages db) to;
let inbox' := delete frm inbox in
let messages1 := <[to := inbox']> (messages db) in
Ok (inbox !! frm,
  if (size inbox' <? 1)%nat then Db (delete to messages1) (lastNotification db)
  else Db messages1 (lastNotification db)).

(** [removeAllMessages(to)] *)
Definition removeAllMessages (to : string) (db : MessageDatabase)
: option (gmap string Message) * MessageDatabase :=
(messages db !! to, Db (delete to (messages db)) (lastNotification db)).

End Database.

End Messages.

(** ** Proof automation *)

(** Unfolding [parse] down to its dispatch, keeping the branches folded. *)
Ltac hsimpl :=
  cbn -[on_request on_poke on_player on_teampreview on_turn on_switch on_end
        list_index fields PyStr.split PyStr.contains].

(** Running a method body step by step, keeping table lookups, indexing and
    arithmetic folded. *)
Ltac msimpl :=
  cbn -[getitem lookup insert pretty Z.modulo Nat.modulo list_index for_each_M
        read_pokemon String.append].

(** Membership of a tag in a literal list of tags, by cases. *)
Ltac tag_cases :=
  repeat match goal with
  | H : _ ∈ [] |- _ => by apply elem_of_nil in H
  | H : _ ∈ _ :: _ |- _ => apply elem_of_cons in H as [H | H]
  | H : _ ∉ _ :: _ |- _ => apply not_elem_of_cons in H as [? H]
  end; simplify_eq; try done.

(** A statement about a tag that the line at hand does not carry. *)
Ltac other_tag := by (intros; simplify_eq; tag_cases).

(** Evaluation of a closed run to the stated outcome. *)
Ltac evaluates :=
  match goal with
  | |- _ = ?rhs => vm_cast_no_check (eq_refl rhs)
  end.

(** * Properties *)

(** ** Strings *)

Lemma append_cons (x : ascii) (a b : string) : String x a ++ b = String x (a ++ b).
Proof. reflexivity. Qed.

Lemma append_assoc (a b c : string) : (a ++ b) ++ c = a ++ (b ++ c).
Proof.
  induction a as [|x a IH]; [done |].
  by rewrite !append_cons, IH.
Qed.

Lemma startswith_app (p s : string) : PyStr.startswith p (p ++ s) = true.
Proof.
  induction p as [|a p IH]; [done |].
  rewrite append_cons. simpl. by rewrite Ascii.eqb_refl.
Qed.

Lemma contains_infix (a sub b : string) : PyStr.contains sub (a ++ sub ++ b) = true.
Proof.
  induction a as [|x a IH].
  - change ("" ++ sub ++ b) with (sub ++ b).
    destruct (sub ++ b) eqn:E; simpl; rewrite <- E, startswith_app; done.
  - rewrite append_cons. simpl. rewrite IH. apply orb_true_r.
Qed.

Lemma rev_app_append (cur t s : string) :
  String.rev_app cur t ++ s = String.rev_app cur (t ++ s).
Proof.
  revert t. induction cur as [|c cur IH]; intros t; [done |].
  simpl. by rewrite IH.
Qed.

Lemma rev_cons_append (c : ascii) (cur s : string) :
  String.rev (String c cur) ++ s = String.rev cur ++ String c s.
Proof. unfold String.rev. simpl. by rewrite !rev_app_append. Qed.

(** Every field that [split] yields is a piece of the line it was cut from. *)
Lemma split_go_infix (sep : ascii) (s cur f : string) :
  f ∈ PyStr.split_go sep cur s → ∃ a b, String.rev cur ++ s = a ++ f ++ b.
Proof.
  revert cur. induction s as [|c s IH]; intros cur; simpl.
  - intros ->%list_elem_of_singleton. by exists "", "".
  - destruct (Ascii.eqb c sep).
    + intros [-> | Hin]%elem_of_cons.
      * by exists "", (String c s).
      * destruct (IH _ Hin) as (a & b & E).
        change (String.rev "" ++ s) with s in E.
        exists (String.rev cur ++ String c a), b.
        by rewrite append_assoc, append_cons, E.
    + intros Hin. destruct (IH _ Hin) as (a & b & E).
      exists a, b. by rewrite <- E, rev_cons_append.
Qed.

Lemma split_field_contains (sep : ascii) (s f : string) :
  f ∈ PyStr.split sep s → PyStr.contains f s = true.
Proof.
  intros (a & b & E)%split_go_infix.
  change (String.rev "" ++ s) with s in E. rewrite E.
  apply contains_infix.
Qed.

Lemma list_index_elem_of {A : Type} (xs : list A) (k : Z) (x : A) :
  list_index xs k = Ok x → x ∈ xs.
Proof.
  unfold list_index. destruct (_ <? 0)%Z; [done |].
  destruct (xs !! _) eqn:E; [| done].
  intros [= <-]. by eapply list_elem_of_lookup_2.
Qed.


Lemma list_index_nat {A : Type} (xs : list A) (n : nat) :
  list_index xs (Z.of_nat n) =
    match xs !! n with
    | Some x => Ok x
    | None => Raise IndexError
    end.
Proof.
  unfold list_index.
  destruct (Z.ltb_spec (Z.of_nat n) 0) as [|_]; [lia |].
  destruct (Z.ltb_spec (Z.of_nat n) 0) as [|_]; [lia |].
  by rewrite Nat2Z.id.
Qed.

(** ** The acceptability predicate *)

#[local] Set Warnings "-clear-no-such-hyp".

Lemma Qlt_bool_iff (x y : Q) : Qlt_bool x y = true ↔ (x < y)%Q.
Proof.
  unfold Qlt_bool. rewrite negb_true_iff.
  split.
  - intros Hle. apply Qnot_le_lt. intros H%Qle_bool_iff. congruence.
  - intros Hlt. destruct (Qle_bool y x) eqn:E; [| done].
    apply Qle_bool_iff in E. by apply Qlt_not_le in Hlt.
Qed.

Lemma Qlt_bool_exclusive (e : Q) : Qlt_bool 1 e = true → Qlt_bool e 1 = false.
Proof.
  intros H%Qlt_bool_iff. destruct (Qlt_bool e 1) eqn:E; [| done].
  apply Qlt_bool_iff in E. exfalso. eapply Qlt_irrefl, Qlt_trans; eauto.
Qed.

Lemma Qlt_bool_neutral (e : Q) : (e == 1)%Q → Qlt_bool 1 e = false ∧ Qlt_bool e 1 = false.
Proof.
  intros He. split.
  - destruct (Qlt_bool 1 e) eqn:E; [| done].
    apply Qlt_bool_iff in E. rewrite He in E. by apply Qlt_irrefl in E.
  - destruct (Qlt_bool e 1) eqn:E; [| done].
    apply Qlt_bool_iff in E. rewrite He in E. by apply Qlt_irrefl in E.
Qed.

Section WeaknessFacts.

Variable Types : gmap string (gmap string Q).
Variable Pokedex : gmap string dex_entry.

Lemma NoDup_type_names : NoDup (type_names Types).
Proof. unfold type_names. apply NoDup_elements. Qed.

Lemma elem_of_type_names (k : string) : k ∈ type_names Types ↔ k ∈ dom Types.
Proof. unfold type_names. apply elem_of_elements. Qed.

(** Weak is a product above 1, resistant a product below 1, and a product
    of exactly 1 is neither. *)
Lemma is_weak_spec (t p : string) :
  is_weak Types Pokedex t p = true ↔
  ∃ e, effectiveness Types Pokedex p t = Some e ∧ (1 < e)%Q.
Proof.
  unfold is_weak. destruct (effectiveness Types Pokedex p t) as [e|].
  - rewrite Qlt_bool_iff. split; [by exists e | by intros (? & [= <-] & ?)].
  - split; [done | by intros (? & ? & _)].
Qed.

Lemma is_resistant_spec (t p : string) :
  is_resistant Types Pokedex t p = true ↔
  ∃ e, effectiveness Types Pokedex p t = Some e ∧ (e < 1)%Q.
Proof.
  unfold is_resistant. destruct (effectiveness Types Pokedex p t) as [e|].
  - rewrite Qlt_bool_iff. split; [by exists e | by intros (? & [= <-] & ?)].
  - split; [done | by intros (? & ? & _)].
Qed.

Lemma neutral_is_neither (t p : string) (e : Q) :
  effectiveness Types Pokedex p t = Some e → (e == 1)%Q →
  is_weak Types Pokedex t p = false ∧ is_resistant Types Pokedex t p = false.
Proof.
  intros He H1. unfold is_weak, is_resistant. rewrite He.
  by apply Qlt_bool_neutral.
Qed.

Lemma count_eff_ok (e : Q) (m : string) (comp : gmap string tally) (c : tally) :
  comp !! m = Some c →
  count_eff e m comp = Ok (<[m := step_tally e c]> comp).
Proof.
  intros Hc. unfold count_eff, step_tally, bump, getitem.
  destruct (Qlt_bool 1 e); [by rewrite Hc |].
  destruct (Qlt_bool e 1); [by rewrite Hc |].
  by rewrite insert_id.
Qed.

(** The inner loop [for matchup in Types] for one member: every listed
    key is stepped once, every other key is left alone. *)
Lemma for_each_matchups (f : string → option Q)
    (body : gmap string tally → string → result (gmap string tally))
    (ks : list string) (comp : gmap string tally) :
  NoDup ks →
  (∀ k, k ∈ ks → is_Some (comp !! k)) →
  (∀ k, k ∈ ks → ∃ e, f k = Some e ∧ ∀ c, body c k = count_eff e k c) →
  ∃ comp',
    for_each body ks comp = Ok comp' ∧
    ∀ t, comp' !! t =
           if decide (t ∈ ks)
           then (λ c, from_option (λ e, step_tally e c) c (f t)) <$> comp !! t
           else comp !! t.
Proof.
  revert comp. induction ks as [|k ks IH]; intros comp Hnd Hdef Hbody.
  - exists comp. split; [done |]. intros t. by rewrite decide_False by set_solver.
  - apply NoDup_cons in Hnd as [Hk Hnd].
    destruct (Hdef k) as [c Hc]; [set_solver |].
    destruct (Hbody k) as (e & Hf & Hb); [set_solver |].
    simpl. rewrite Hb, (count_eff_ok _ _ _ _ Hc). simpl.
    destruct (IH (<[k := step_tally e c]> comp)) as (comp' & Hrun & Hlook); [done | | |].
    + intros k' Hk'. rewrite lookup_insert_ne by set_solver. apply Hdef. set_solver.
    + intros k' Hk'. apply Hbody. set_solver.
    + exists comp'. split; [done |]. intros t. rewrite Hlook.
      destruct (decide (t = k)) as [-> | Hne].
      * rewrite decide_False by done. rewrite decide_True by set_solver.
        rewrite lookup_insert_eq, Hc, Hf. done.
      * rewrite lookup_insert_ne by done.
        destruct (decide (t ∈ ks)).
        -- by rewrite decide_True by set_solver.
        -- by rewrite decide_False by set_solver.
Qed.

(** [tally_poke] on a catalogued member. *)
Lemma tally_poke_ok (comp : gmap string tally) (p : string) :
  catalogued Types Pokedex {[p]} →
  dom comp = dom Types →
  ∃ comp',
    tally_poke Types Pokedex comp p = Ok comp' ∧
    dom comp' = dom Types ∧
    ∀ t c, comp !! t = Some c →
      comp' !! t = Some (Tally (weak c + Nat.b2n (is_weak Types Pokedex t p))
                               (res c + Nat.b2n (is_resistant Types Pokedex t p))).
Proof.
  intros Hcat Hdom.
  destruct (Hcat p) as (e & He & Hlen & Hrows); [set_solver |].
  assert (∀ k, k ∈ type_names Types → is_Some (comp !! k)) as Hdef.
  { intros k Hk. apply elem_of_dom. rewrite Hdom. by apply elem_of_type_names. }
  assert (∃ comp',
    tally_poke Types Pokedex comp p = Ok comp' ∧
    ∀ t, comp' !! t =
           if decide (t ∈ type_names Types)
           then (λ c, from_option (λ e, step_tally e c) c
                        (effectiveness Types Pokedex p t)) <$> comp !! t
           else comp !! t) as (comp' & Hrun & Hlook).
  { unfold tally_poke, getitem. rewrite He. simpl.
    destruct (types e) as [|t0 [|t1 [|]]] eqn:Hty; simpl in Hlen; try lia.
    - destruct (Hrows t0) as (row & Hrow & Htot); [set_solver |].
      apply for_each_matchups; [apply NoDup_type_names | done |].
      intros k Hk%elem_of_type_names.
      destruct (Htot k Hk) as [a Ha]. exists a. split.
      + unfold effectiveness. rewrite He. simpl. rewrite Hty, Hrow. simpl. done.
      + intros c. unfold multiplier, getitem. rewrite Hrow. simpl. by rewrite Ha.
    - destruct (Hrows t0) as (r0 & Hr0 & Htot0); [set_solver |].
      destruct (Hrows t1) as (r1 & Hr1 & Htot1); [set_solver |].
      apply for_each_matchups; [apply NoDup_type_names | done |].
      intros k Hk%elem_of_type_names.
      destruct (Htot0 k Hk) as [a Ha]. destruct (Htot1 k Hk) as [b Hb].
      exists (a * b)%Q. split.
      + unfold effectiveness. rewrite He. simpl. rewrite Hty, Hr0. simpl.
        rewrite Ha. simpl. rewrite Hr1. simpl. by rewrite Hb.
      + intros c. unfold multiplier, getitem. rewrite Hr0, Hr1. simpl.
        by rewrite Ha, Hb. }
  exists comp'. split; [done |]. split.
  - apply set_eq. intros t. rewrite <- Hdom, !elem_of_dom, Hlook.
    destruct (decide _); [| done]. by rewrite fmap_is_Some.
  - intros t c Hc. rewrite Hlook, Hc.
    assert (t ∈ type_names Types) as Hin.
    { apply elem_of_type_names. rewrite <- Hdom. by apply elem_of_dom. }
    rewrite decide_True by done. simpl. f_equal.
    unfold is_weak, is_resistant.
    destruct (effectiveness Types Pokedex p t) as [q|]; simpl.
    + unfold step_tally. destruct (Qlt_bool 1 q) eqn:E1.
      * rewrite (Qlt_bool_exclusive _ E1). unfold add_weak. simpl.
        f_equal; lia.
      * destruct (Qlt_bool q 1); unfold add_res; simpl; destruct c; simpl; f_equal; lia.
    + destruct c; simpl; f_equal; lia.
Qed.

Lemma catalogued_mono (team team' : gset string) :
  team' ⊆ team → catalogued Types Pokedex team → catalogued Types Pokedex team'.
Proof. intros Hsub Hcat p Hp. apply Hcat. by apply Hsub. Qed.

Lemma cataloguedb_sound (team : gset string) :
  cataloguedb Types Pokedex team = true → catalogued Types Pokedex team.
Proof.
  unfold cataloguedb. rewrite forallb_forall.
  intros Hall p Hp.
  specialize (Hall p). rewrite <- list_elem_of_In, elem_of_elements in Hall.
  specialize (Hall Hp).
  destruct (Pokedex !! p) as [e|]; [| done].
  apply andb_true_iff in Hall as [Hlen Hrows].
  exists e. split; [done |]. split.
  - apply orb_true_iff in Hlen as [H%Nat.eqb_eq | H%Nat.eqb_eq]; auto.
  - intros ty Hty. rewrite forallb_forall in Hrows.
    specialize (Hrows ty). rewrite <- list_elem_of_In in Hrows.
    specialize (Hrows Hty).
    destruct (Types !! ty) as [row|]; [| done].
    exists row. split; [done |].
    intros t Ht. rewrite forallb_forall in Hrows.
    specialize (Hrows t). rewrite <- list_elem_of_In, elem_of_type_names in Hrows.
    specialize (Hrows Ht). by apply bool_decide_eq_true in Hrows.
Qed.

Lemma count_cons (f : string → bool) (p : string) (ps : list string) :
  count f (p :: ps) = (Nat.b2n (f p) + count f ps)%nat.
Proof.
  unfold count. rewrite filter_cons.
  case_decide as Hf; [by rewrite Hf |].
  by destruct (f p).
Qed.

(** The loop [for poke in team]: the counters grow by the number of weak
    and of resistant members. *)
Lemma tally_team_ok (ps : list string) (comp : gmap string tally) :
  (∀ p, p ∈ ps → catalogued Types Pokedex {[p]}) →
  dom comp = dom Types →
  ∃ comp',
    for_each (tally_poke Types Pokedex) ps comp = Ok comp' ∧
    dom comp' = dom Types ∧
    ∀ t c, comp !! t = Some c →
      comp' !! t = Some (Tally (weak c + count (is_weak Types Pokedex t) ps)
                               (res c + count (is_resistant Types Pokedex t) ps)).
Proof.
  revert comp. induction ps as [|p ps IH]; intros comp Hcat Hdom.
  - exists comp. split; [done |]. split; [done |].
    intros t [w r] Hc. rewrite Hc. unfold count. simpl. f_equal. f_equal; lia.
  - destruct (tally_poke_ok comp p) as (comp1 & Hrun1 & Hdom1 & Hlook1);
      [apply Hcat; by left | done |].
    destruct (IH comp1) as (comp' & Hrun & Hdom' & Hlook);
      [intros q Hq; apply Hcat; by right | done |].
    exists comp'. simpl. rewrite Hrun1. simpl. split; [done |]. split; [done |].
    intros t c Hc. rewrite (Hlook t _ (Hlook1 t c Hc)). simpl.
    rewrite !count_cons. f_equal. f_equal; lia.
Qed.

Lemma verdict_spec (ks : list string) (comp : gmap string tally) :
  (∀ k, k ∈ ks → is_Some (comp !! k)) →
  ∃ b, verdict ks comp = Ok b ∧
       (b = true ↔ ∀ k c, k ∈ ks → comp !! k = Some c → balanced c).
Proof.
  induction ks as [|k ks IH]; intros Hdef.
  - exists true. split; [done |]. split; [| done].
    intros _ k c Hk. by apply elem_of_nil in Hk.
  - destruct (Hdef k) as [c Hc]; [by left |].
    destruct IH as (b & Hrun & Hb); [intros k' Hk'; apply Hdef; by right |].
    cbn -[Nat.leb]. unfold getitem. rewrite Hc. cbn -[Nat.leb].
    destruct (Nat.leb_spec 3 (weak c)) as [H3 | H3].
    { exists false. split; [done |]. split; [done |]. intros Hall.
      destruct (Hall k c) as [Hlt _]; [by left | done | lia]. }
    destruct (Nat.leb_spec 2 (weak c)) as [H2 | H2];
      [destruct (Nat.leb_spec (res c) 1) as [H1 | H1] |]; cbn -[Nat.leb].
    + exists false. split; [done |]. split; [done |]. intros Hall.
      destruct (Hall k c) as [_ Hn]; [by left | done |]. destruct Hn. lia.
    + exists b. split; [done |]. rewrite Hb. split.
      * intros Hall k' c' [-> | Hk']%elem_of_cons Hc'.
        -- simplify_eq. unfold balanced. lia.
        -- by eapply Hall.
      * intros Hall k' c' Hk'. apply Hall. by right.
    + exists b. split; [done |]. rewrite Hb. split.
      * intros Hall k' c' [-> | Hk']%elem_of_cons Hc'.
        -- simplify_eq. unfold balanced. lia.
        -- by eapply Hall.
      * intros Hall k' c' Hk'. apply Hall. by right.
Qed.

Lemma acceptableWeakness_empty : acceptableWeakness Types Pokedex ∅ = Ok false.
Proof. unfold acceptableWeakness. by rewrite decide_True. Qed.

(** On a catalogued team the function returns, and its answer is the
    predicate of the specification. *)
Lemma acceptableWeakness_decides (team : gset string) :
  catalogued Types Pokedex team →
  ∃ b, acceptableWeakness Types Pokedex team = Ok b ∧
       (b = true ↔ acceptable Types Pokedex team).
Proof.
  intros Hcat. unfold acceptableWeakness, acceptable.
  destruct (decide (team = ∅)) as [-> | Hne].
  { exists false. split; [done |]. split; [done | by intros [? _]]. }
  destruct (tally_team_ok (elements team)
              (gset_to_gmap (Tally 0 0) (dom Types)))
    as (comp & Hrun & Hdom & Hlook).
  { intros p Hp%elem_of_elements. eapply catalogued_mono; [| done]. set_solver. }
  { apply dom_gset_to_gmap. }
  simpl. rewrite Hrun. simpl.
  destruct (verdict_spec (elements (dom comp)) comp) as (b & Hv & Hb).
  { intros k Hk%elem_of_elements. by apply elem_of_dom. }
  exists b. split; [done |]. rewrite Hb. split.
  - intros Hall. split; [done |]. intros t Ht.
    apply (Hall t (Tally (weak_count Types Pokedex t team)
                         (resistant_count Types Pokedex t team))).
    + apply elem_of_elements. by rewrite Hdom.
    + rewrite (Hlook t (Tally 0 0)); [done |].
      rewrite lookup_gset_to_gmap_Some. done.
  - intros [_ Hall] k c Hk%elem_of_elements Hc. rewrite Hdom in Hk.
    rewrite (Hlook k (Tally 0 0)) in Hc by (by rewrite lookup_gset_to_gmap_Some).
    simplify_eq. apply (Hall k Hk).
Qed.

(** C1: on every team whose members the catalogue and the table cover,
    [acceptableWeakness] returns, and it returns [True] exactly when the
    team is non-empty and every attacking type [t] has fewer than 3 weak
    members and not both at least 2 weak and at most 1 resistant members,
    where weak means a product of multipliers above 1 and resistant a
    product below 1; on the empty team it returns [False]. *)
Theorem acceptableWeakness_meets_spec (team : gset string) :
  catalogued Types Pokedex team →
  (∃ b, acceptableWeakness Types Pokedex team = Ok b) ∧
  (acceptableWeakness Types Pokedex team = Ok true ↔
     team ≠ ∅ ∧
     ∀ t, t ∈ dom Types →
       (weak_count Types Pokedex t team < 3)%nat ∧
       ¬ (2 ≤ weak_count Types Pokedex t team ∧
          resistant_count Types Pokedex t team ≤ 1)%nat) ∧
  acceptableWeakness Types Pokedex ∅ = Ok false.
Proof.
  intros Hcat.
  destruct (acceptableWeakness_decides team Hcat) as (b & Hrun & Hb).
  split; [by exists b |]. split; [| apply acceptableWeakness_empty].
  rewrite Hrun. fold (acceptable Types Pokedex team). rewrite <- Hb.
  split; [by intros [= ->] | by intros ->].
Qed.

End WeaknessFacts.

(** ** The team command *)

Section BuilderFacts.

Variable Types : gmap string (gmap string Q).
Variable Pokedex : gmap string dex_entry.
Variable pool : list string.

Lemma draw_elem_of (raw : nat) (p : string) : draw pool raw = Ok p → p ∈ pool.
Proof.
  unfold draw. destruct (randint _ _ _) as [k|]; [| done].
  apply list_index_elem_of.
Qed.

Lemma has_mega_false (team : gset string) (p : string) :
  has_mega team = false → p ∈ team → PyStr.contains "-Mega" p = false.
Proof.
  unfold has_mega. intros Hno Hp.
  destruct (PyStr.contains "-Mega" p) eqn:E; [| done].
  assert (existsb (PyStr.contains "-Mega") (elements team) = true) as Hex; [| congruence].
  apply existsb_exists. exists p. split; [| done].
  by apply list_elem_of_In, elem_of_elements.
Qed.

(** The outer loop, as long as it returns on the normal path, keeps every
    property of the team that one accepted or withdrawn draw keeps; and
    the team it returns has reached the full size. *)
Lemma build_loop_normal_invariant (I : gset string → Prop) :
  (∀ team poke acc,
     I team →
     has_mega team && PyStr.contains "-Mega" poke = false →
     acceptableWeakness Types Pokedex (team ∪ {[poke]}) = Ok acc →
     I (if acc then team ∪ {[poke]} else (team ∪ {[poke]}) ∖ {[poke]})) →
  ∀ rnd team attempts t,
    I team →
    build_loop Types Pokedex pool team attempts rnd = Returned (t, NormalPath) →
    I t ∧ (TEAM_SIZE ≤ size t)%nat.
Proof.
  intros Hstep rnd. induction rnd as [|raw rnd IH]; intros team attempts t HI.
  - simpl. unfold keep_going.
    destruct (decide (size team < TEAM_SIZE)%nat) as [Hlt | Hge]; [done |].
    destruct (acceptableWeakness Types Pokedex team) as [[]|]; simpl; [| done | done].
    intros [= <-]. split; [done | lia].
  - simpl. unfold keep_going.
    destruct (decide (size team < TEAM_SIZE)%nat) as [Hlt | Hge]; simpl.
    + destruct (draw pool raw) as [poke|]; [| done].
      case_bool_decide; [by apply IH; auto |].
      destruct (has_mega team && PyStr.contains "-Mega" poke) eqn:Hm;
        [by apply IH; auto |].
      destruct (acceptableWeakness Types Pokedex (team ∪ {[poke]})) as [acc|] eqn:Hacc;
        [| done].
      pose proof (Hstep team poke acc HI Hm Hacc) as HI'.
      set (team2 := if acc then team ∪ {[poke]} else (team ∪ {[poke]}) ∖ {[poke]}) in *.
      destruct (decide (TEAM_SIZE ≤ size team2)%nat); [by intros [= <-] |].
      destruct (decide (MAX_ATTEMPTS ≤ S attempts)%nat).
      * by destruct (fill pool team2 rnd).
      * by apply IH; auto.
    + destruct (acceptableWeakness Types Pokedex team) as [[]|]; simpl; [| | done].
      * intros [= <-]. split; [done | lia].
      * destruct (draw pool raw) as [poke|]; [| done].
        case_bool_decide; [by apply IH; auto |].
        destruct (has_mega team && PyStr.contains "-Mega" poke) eqn:Hm;
          [by apply IH; auto |].
        destruct (acceptableWeakness Types Pokedex (team ∪ {[poke]})) as [acc|] eqn:Hacc;
          [| done].
        pose proof (Hstep team poke acc HI Hm Hacc) as HI'.
        set (team2 := if acc then team ∪ {[poke]} else (team ∪ {[poke]}) ∖ {[poke]}) in *.
        destruct (decide (TEAM_SIZE ≤ size team2)%nat); [by intros [= <-] |].
        destruct (decide (MAX_ATTEMPTS ≤ S attempts)%nat).
        -- by destruct (fill pool team2 rnd).
        -- by apply IH; auto.
Qed.

Lemma empty_or_acceptable_step (team : gset string) (poke : string) (acc : bool) :
  empty_or_acceptable Types Pokedex team →
  acceptableWeakness Types Pokedex (team ∪ {[poke]}) = Ok acc →
  empty_or_acceptable Types Pokedex
    (if acc then team ∪ {[poke]} else (team ∪ {[poke]}) ∖ {[poke]}).
Proof.
  intros HI Hacc. destruct acc; [by right |].
  destruct (decide (poke ∈ team)) as [Hin | Hnin].
  - (* the draw was a member already: the team is as before, and passes *)
    replace (team ∪ {[poke]}) with team in Hacc by set_solver.
    destruct HI as [-> | Hok]; [set_solver | congruence].
  - replace ((team ∪ {[poke]}) ∖ {[poke]}) with team by set_solver. done.
Qed.

Lemma at_most_one_mega_step (team : gset string) (poke : string) (acc : bool) :
  at_most_one (PyStr.contains "-Mega") team →
  has_mega team && PyStr.contains "-Mega" poke = false →
  at_most_one (PyStr.contains "-Mega")
    (if acc then team ∪ {[poke]} else (team ∪ {[poke]}) ∖ {[poke]}).
Proof.
  intros HI Hm. destruct acc.
  - intros p q [Hp | ->%elem_of_singleton]%elem_of_union
               [Hq | ->%elem_of_singleton]%elem_of_union Hmp Hmq; [by apply HI | | | done].
    + rewrite Hmq, andb_true_r in Hm.
      rewrite (has_mega_false _ _ Hm Hp) in Hmp. done.
    + rewrite Hmp, andb_true_r in Hm.
      rewrite (has_mega_false _ _ Hm Hq) in Hmq. done.
  - intros p q Hp Hq. apply HI; set_solver.
Qed.

(** C6: a team that the command returns on its normal path, that is
    without entering the fill that follows 100 attempts, has reached size 6
    and passes [acceptableWeakness]. *)
Theorem normal_path_team_acceptable (rnd : list nat) (team : gset string) :
  build_team Types Pokedex pool rnd = Returned (team, NormalPath) →
  (TEAM_SIZE ≤ size team)%nat ∧
  acceptableWeakness Types Pokedex team = Ok true.
Proof.
  intros Hrun.
  destruct (build_loop_normal_invariant (empty_or_acceptable Types Pokedex))
    with (rnd := rnd) (team := (∅ : gset string)) (attempts := 0%nat) (t := team)
    as [[-> | Hok] Hsize]; [| by left | done | | done].
  - intros t poke acc HI _ Hacc. by apply empty_or_acceptable_step.
  - rewrite size_empty in Hsize. unfold TEAM_SIZE in Hsize. lia.
Qed.

(** C5 (as amended): a team returned on the normal path has at most one
    member whose descriptor contains [-Mega]. *)
Theorem normal_path_one_mega (rnd : list nat) (team : gset string) :
  build_team Types Pokedex pool rnd = Returned (team, NormalPath) →
  at_most_one (PyStr.contains "-Mega") team.
Proof.
  intros Hrun.
  destruct (build_loop_normal_invariant (at_most_one (PyStr.contains "-Mega")))
    with (rnd := rnd) (team := (∅ : gset string)) (attempts := 0%nat) (t := team)
    as [Hone _]; [| | done | done].
  - intros t poke acc HI Hm _. by apply at_most_one_mega_step.
  - intros p q Hp. set_solver.
Qed.

(** *** A pool with fewer than six distinct species *)

Lemma fill_undersized (rnd : list nat) (team : gset string) :
  (size (list_to_set pool : gset string) < TEAM_SIZE)%nat →
  team ⊆ list_to_set pool →
  ∀ t, fill pool team rnd ≠ Returned t.
Proof.
  intros Hsmall. revert team. induction rnd as [|raw rnd IH]; intros team Hsub t.
  - simpl. destruct (decide (size team < TEAM_SIZE)%nat) as [|Hge]; [done |].
    apply subseteq_size in Hsub. lia.
  - simpl. destruct (decide (size team < TEAM_SIZE)%nat) as [|Hge].
    + destruct (draw pool raw) as [poke|] eqn:Hd; [| done].
      apply IH. apply draw_elem_of in Hd. set_solver.
    + apply subseteq_size in Hsub. lia.
Qed.

Lemma build_loop_undersized (rnd : list nat) (team : gset string) (attempts : nat) :
  (size (list_to_set pool : gset string) < TEAM_SIZE)%nat →
  team ⊆ list_to_set pool →
  ∀ r, build_loop Types Pokedex pool team attempts rnd ≠ Returned r.
Proof.
  intros Hsmall. revert team attempts.
  induction rnd as [|raw rnd IH]; intros team attempts Hsub r;
    pose proof (subseteq_size _ _ Hsub) as Hsz;
    simpl; unfold keep_going;
    (destruct (decide (size team < TEAM_SIZE)%nat) as [_ | Hge]; [| lia]);
    [done |].
  destruct (draw pool raw) as [poke|] eqn:Hd; [| done].
  apply draw_elem_of in Hd.
  case_bool_decide; [by apply IH |].
  destruct (has_mega team && PyStr.contains "-Mega" poke); [by apply IH |].
  destruct (acceptableWeakness Types Pokedex (team ∪ {[poke]})) as [acc|]; [| done].
  set (team2 := if acc then team ∪ {[poke]} else (team ∪ {[poke]}) ∖ {[poke]}).
  assert (team2 ⊆ list_to_set pool) as Hsub2.
  { subst team2. destruct acc; set_solver. }
  pose proof (subseteq_size _ _ Hsub2) as Hsz2.
  destruct (decide (TEAM_SIZE ≤ size team2)%nat); [lia |].
  destruct (decide (MAX_ATTEMPTS ≤ S attempts)%nat); [| by apply IH].
  pose proof (fill_undersized rnd team2 Hsmall Hsub2) as Hfill.
  destruct (fill pool team2 rnd) as [t| |]; [by destruct (Hfill t) | done | done].
Qed.

(** X11: A pool with fewer than six distinct species yields no team, whatever the
    random source supplies and however long it runs: the command raises or
    is still looping. *)
Lemma undersized_pool_no_team (rnd : list nat) :
  (size (list_to_set pool : gset string) < TEAM_SIZE)%nat →
  ∀ r, build_team Types Pokedex pool rnd ≠ Returned r.
Proof. intros Hsmall. by apply build_loop_undersized. Qed.

End BuilderFacts.

(** ** The definitions run on the sample catalogue *)

Lemma acceptableWeakness_meets_spec_witness :
  catalogued Sample.Types Sample.Pokedex {["Charizard"; "Pikachu"]} ∧
  (∃ b, acceptableWeakness Sample.Types Sample.Pokedex {["Charizard"; "Pikachu"]} = Ok b) ∧
  (acceptableWeakness Sample.Types Sample.Pokedex {["Charizard"; "Pikachu"]} = Ok true ↔
     ({["Charizard"; "Pikachu"]} : gset string) ≠ ∅ ∧
     ∀ t, t ∈ dom Sample.Types →
       (weak_count Sample.Types Sample.Pokedex t {["Charizard"; "Pikachu"]} < 3)%nat ∧
       ¬ (2 ≤ weak_count Sample.Types Sample.Pokedex t {["Charizard"; "Pikachu"]} ∧
          resistant_count Sample.Types Sample.Pokedex t {["Charizard"; "Pikachu"]} ≤ 1)%nat) ∧
  acceptableWeakness Sample.Types Sample.Pokedex ∅ = Ok false.
Proof.
  assert (catalogued Sample.Types Sample.Pokedex {["Charizard"; "Pikachu"]}) as Hcat.
  { apply cataloguedb_sound. vm_compute. reflexivity. }
  split; [exact Hcat |].
  exact (acceptableWeakness_meets_spec Sample.Types Sample.Pokedex
           {["Charizard"; "Pikachu"]} Hcat).
Defined.

(** Two Fire types are both weak to Water and neither resists it: the team
    is rejected. *)
Example two_fire_types_rejected :
  weak_count Sample.Types Sample.Pokedex "Water" {["Arcanine"; "Ninetales"]} = 2%nat ∧
  resistant_count Sample.Types Sample.Pokedex "Water" {["Arcanine"; "Ninetales"]} = 0%nat ∧
  acceptableWeakness Sample.Types Sample.Pokedex {["Arcanine"; "Ninetales"]} = Ok false.
Proof. repeat split; vm_compute; reflexivity. Qed.

(** A member that the Pokedex does not list makes the function raise. *)
Example unlisted_member_raises :
  acceptableWeakness Sample.Types Sample.Pokedex {["Arcanine"; "MissingNo"]}
  = Raise KeyError.
Proof. vm_compute. reflexivity. Qed.

Lemma mixed_run :
  build_team Sample.Types Sample.Pokedex Runs.mixed_pool Runs.mixed_draws
  = Returned ({["Charizard-Mega-X"; "Swampert"; "Ferrothorn"; "Charizard";
                "Clefable"; "Skarmory"]}, NormalPath).
Proof. evaluates. Qed.

Lemma primal_run :
  build_team Sample.Types Sample.Pokedex Runs.primal_pool Runs.primal_draws
  = Returned ({["Groudon-Primal"; "Kyogre-Primal"; "Venusaur-Mega"; "Skarmory";
                "Clefable"; "Swampert"]}, NormalPath).
Proof. evaluates. Qed.

Lemma fire_run :
  build_team Sample.Types Sample.Pokedex Runs.fire_pool Runs.fire_draws
  = Returned ({["Arcanine"; "Charizard-Mega-X"; "Charizard-Mega-Y";
                "Houndoom-Mega"; "Ninetales"; "Rapidash"]}, FallbackPath).
Proof. evaluates. Qed.

Lemma builder_teams_unique_refuted : ¬ builder_teams_unique.
Proof.
  intros Hclaim.
  destruct (Hclaim _ _ _ _ _ _ mixed_run) as [Hbase _].
  assert ("Charizard-Mega-X" = "Charizard") as Heq; [| discriminate Heq].
  apply Hbase; [set_solver | set_solver | reflexivity].
Qed.

(** The normal path returns a team that holds both [Charizard-Mega-X] and
    [Charizard], two descriptors of one base species. *)
Lemma normal_path_shared_base :
  ∃ team, build_team Sample.Types Sample.Pokedex Runs.mixed_pool Runs.mixed_draws
          = Returned (team, NormalPath) ∧
          ¬ distinct_base_species team.
Proof.
  eexists. split; [exact mixed_run |].
  intros Hbase.
  assert ("Charizard-Mega-X" = "Charizard") as Heq; [| discriminate Heq].
  apply Hbase; [set_solver | set_solver | reflexivity].
Qed.

(** The normal path does not count primal forms: it returns a team with two
    primal forms and a mega form. *)
Lemma normal_path_three_markers :
  ∃ team, build_team Sample.Types Sample.Pokedex Runs.primal_pool Runs.primal_draws
          = Returned (team, NormalPath) ∧
          ¬ at_most_one has_form_marker team.
Proof.
  eexists. split; [exact primal_run |].
  intros Hone.
  assert ("Groudon-Primal" = "Kyogre-Primal") as Heq; [| discriminate Heq].
  apply Hone; [set_solver | set_solver | reflexivity | reflexivity].
Qed.

(** The fill after 100 attempts checks nothing: it returns a team with three
    mega forms, two of them of one base species, that fails the balance
    test. *)
Lemma fallback_path_unchecked :
  ∃ team, build_team Sample.Types Sample.Pokedex Runs.fire_pool Runs.fire_draws
          = Returned (team, FallbackPath) ∧
          ¬ at_most_one (PyStr.contains "-Mega") team ∧
          ¬ distinct_base_species team ∧
          acceptableWeakness Sample.Types Sample.Pokedex team = Ok false.
Proof.
  eexists. split; [exact fire_run |]. split; [| split].
  - intros Hone.
    assert ("Charizard-Mega-X" = "Houndoom-Mega") as Heq; [| discriminate Heq].
    apply Hone; [set_solver | set_solver | reflexivity | reflexivity].
  - intros Hbase.
    assert ("Charizard-Mega-X" = "Charizard-Mega-Y") as Heq; [| discriminate Heq].
    apply Hbase; [set_solver | set_solver | reflexivity].
  - vm_compute. reflexivity.
Qed.

(** C5, refuted as stated, on three runs: the normal path returns two
    descriptors of one base species; the normal path returns two primal forms
    next to a mega form; the fill returns three mega forms. *)
Lemma builder_teams_unique_fails :
  (∃ team, build_team Sample.Types Sample.Pokedex Runs.mixed_pool Runs.mixed_draws
           = Returned (team, NormalPath) ∧
           ¬ distinct_base_species team) ∧
  (∃ team, build_team Sample.Types Sample.Pokedex Runs.primal_pool Runs.primal_draws
           = Returned (team, NormalPath) ∧
           ¬ at_most_one has_form_marker team) ∧
  (∃ team, build_team Sample.Types Sample.Pokedex Runs.fire_pool Runs.fire_draws
           = Returned (team, FallbackPath) ∧
           ¬ at_most_one (PyStr.contains "-Mega") team ∧
           ¬ distinct_base_species team ∧
           acceptableWeakness Sample.Types Sample.Pokedex team = Ok false) ∧
  ¬ builder_teams_unique.
Proof.
  split; [exact normal_path_shared_base |].
  split; [exact normal_path_three_markers |].
  split; [exact fallback_path_unchecked |].
  exact builder_teams_unique_refuted.
Qed.

Lemma normal_path_one_mega_witness :
  build_team Sample.Types Sample.Pokedex Runs.primal_pool Runs.primal_draws
  = Returned ({["Groudon-Primal"; "Kyogre-Primal"; "Venusaur-Mega"; "Skarmory";
                "Clefable"; "Swampert"]}, NormalPath) ∧
  at_most_one (PyStr.contains "-Mega")
    {["Groudon-Primal"; "Kyogre-Primal"; "Venusaur-Mega"; "Skarmory";
      "Clefable"; "Swampert"]}.
Proof.
  split; [exact primal_run |].
  exact (normal_path_one_mega Sample.Types Sample.Pokedex Runs.primal_pool
           Runs.primal_draws _ primal_run).
Defined.

Lemma normal_path_team_acceptable_witness :
  build_team Sample.Types Sample.Pokedex Runs.mixed_pool Runs.mixed_draws
  = Returned ({["Charizard-Mega-X"; "Swampert"; "Ferrothorn"; "Charizard";
                "Clefable"; "Skarmory"]}, NormalPath) ∧
  (TEAM_SIZE ≤ size ({["Charizard-Mega-X"; "Swampert"; "Ferrothorn"; "Charizard";
                       "Clefable"; "Skarmory"]} : gset string))%nat ∧
  acceptableWeakness Sample.Types Sample.Pokedex
    {["Charizard-Mega-X"; "Swampert"; "Ferrothorn"; "Charizard";
      "Clefable"; "Skarmory"]} = Ok true.
Proof.
  split; [exact mixed_run |].
  exact (normal_path_team_acceptable Sample.Types Sample.Pokedex Runs.mixed_pool
           Runs.mixed_draws _ mixed_run).
Defined.

(** *** A pool of one species *)

Lemma draw_single (p : string) (raw : nat) : draw [p] raw = Ok p.
Proof.
  unfold draw, randint. simpl.
  rewrite Z.mod_1_r. reflexivity.
Qed.

Lemma single_pool_stuck (Types : gmap string (gmap string Q))
    (Pokedex : gmap string dex_entry) (p : string) (attempts : nat) (rnd : list nat) :
  PyStr.strip_forms p = p →
  build_loop Types Pokedex [p] {[p]} attempts rnd = Pending.
Proof.
  intros Hplain. induction rnd as [|raw rnd IH]; simpl; unfold keep_going;
    rewrite size_singleton; simpl; [done |].
  rewrite draw_single, Hplain, bool_decide_true by set_solver. exact IH.
Qed.

(** C7: with the pool [Pikachu] alone the command never returns and never
    raises, whatever the random source supplies: the first draw is added,
    and every later draw is skipped by [continue] without counting as an
    attempt, so that neither the loop condition nor the attempt limit ends
    the loop. *)
Theorem single_species_pool_never_returns (rnd : list nat) :
  build_team Sample.Types Sample.Pokedex ["Pikachu"] rnd = Pending.
Proof.
  destruct rnd as [|raw rnd]; [reflexivity |].
  unfold build_team. simpl. unfold keep_going.
  rewrite size_empty. simpl.
  rewrite draw_single.
  rewrite bool_decide_false by set_solver.
  replace (has_mega ∅ && PyStr.contains "-Mega" "Pikachu") with false by reflexivity.
  replace (acceptableWeakness Sample.Types Sample.Pokedex (∅ ∪ {["Pikachu"]}))
    with (Ok true : result bool) by (vm_compute; reflexivity).
  replace (∅ ∪ {["Pikachu"]} : gset string) with ({["Pikachu"]} : gset string)
    by set_solver.
  rewrite size_singleton. simpl.
  by apply single_pool_stuck.
Qed.

Lemma undersized_pool_no_team_witness :
  (size (list_to_set ["Pikachu"; "Blastoise"] : gset string) < TEAM_SIZE)%nat ∧
  ∀ r, build_team Sample.Types Sample.Pokedex ["Pikachu"; "Blastoise"] [0; 1; 0]%nat
       ≠ Returned r.
Proof.
  assert (size (list_to_set ["Pikachu"; "Blastoise"] : gset string) < TEAM_SIZE)%nat
    as Hsmall by (vm_compute; lia).
  split; [exact Hsmall |].
  exact (undersized_pool_no_team Sample.Types Sample.Pokedex
           ["Pikachu"; "Blastoise"] [0; 1; 0]%nat Hsmall).
Defined.

(** An empty pool makes [randint(0, -1)] raise. *)
Example empty_pool_raises (raw : nat) (rnd : list nat) :
  build_team Sample.Types Sample.Pokedex [] (raw :: rnd) = Raised ValueError.
Proof. reflexivity. Qed.

Section HandlerFacts.

Variable json_loads : string → result json.
Variable py_format : json → string.

(** The first two statements of [parse]: an empty line, and any line with
    the letters [init] in it while the key is tracked, return at once. *)
Lemma parse_guard (raw : nat) (battle msg : string) (h : handler) :
  tracked battle h →
  PyStr.contains "init" msg = true →
  runM (parse json_loads py_format raw battle msg) h = (Ok (), h).
Proof.
  intros Hin Hc. unfold parse.
  destruct (decide (msg = "")); [done |].
  simpl. by rewrite bool_decide_true, Hc.
Qed.

Lemma getitem_Some {V : Type} (d : gmap string V) (k : string) (v : V) :
  d !! k = Some v → getitem d k = Ok v.
Proof. intros E. unfold getitem. by rewrite E. Qed.

Lemma getitem_None {V : Type} (d : gmap string V) (k : string) :
  d !! k = None → getitem d k = Raise KeyError.
Proof. intros E. unfold getitem. by rewrite E. Qed.

Lemma session_untracked (battle : string) (h : handler) :
  activeBattles h !! battle = None →
  runM (session battle) h = (Raise KeyError, h).
Proof. intros E. unfold session. msimpl. by rewrite (getitem_None _ _ E). Qed.

Lemma session_tracked (battle : string) (h : handler) (b : Battle.t) :
  activeBattles h !! battle = Some b →
  runM (session battle) h = (Ok b, h).
Proof. intros E. unfold session. msimpl. by rewrite (getitem_Some _ _ _ E). Qed.

Lemma randint_ok (lo hi : Z) (raw : nat) :
  (lo ≤ hi)%Z →
  ∃ k, randint lo hi raw = Ok k ∧ (lo ≤ k ≤ hi)%Z.
Proof.
  intros Hle. unfold randint.
  destruct (Z.ltb_spec hi lo); [lia |].
  eexists; split; [done |].
  pose proof (Z.mod_pos_bound (Z.of_nat raw) (hi - lo + 1)). lia.
Qed.

Lemma on_end_run (battle : string) (msg : list string) (h : handler) (winner : string) :
  list_index msg 2 = Ok winner →
  runM (on_end battle msg) h =
    (Ok (), after_sending h [battle ++ "|" ++ closing_remark h winner;
                             battle ++ "|/leave"]).
Proof.
  intros E. unfold on_end, closing_remark, after_sending, respond. msimpl. rewrite E. msimpl.
  destruct (decide (winner = botName h)); msimpl; by rewrite <- app_assoc.
Qed.

(** With the guard out of the way, [parse] dispatches on the tag. *)
Lemma parse_dispatch (raw : nat) (battle msg : string) (h : handler) (t : string) :
  msg ≠ "" →
  bool_decide (battle ∈ dom (activeBattles h)) && PyStr.contains "init" msg = false →
  tag_of msg = Ok t →
  t ≠ "init" →
  runM (parse json_loads py_format raw battle msg) h =
  runM (if decide (t = "request") then on_request json_loads battle (fields msg)
        else if decide (t = "poke") then on_poke battle (fields msg)
        else if decide (t = "player") then on_player battle (fields msg)
        else if decide (t = "teampreview") then on_teampreview py_format raw battle
        else if decide (t = "turn") then on_turn py_format raw battle
        else if decide (t = "switch") then on_switch battle (fields msg)
        else if bool_decide (t ∈ ["win"; "tie"]) then on_end battle (fields msg)
        else mret ()) h.
Proof.
  intros Hne Hg Ht Hni. unfold parse, tracked in *.
  destruct (decide (msg = "")); [done |].
  hsimpl.
  rewrite Hg. fold (fields msg). unfold tag_of in Ht.
  hsimpl.
  rewrite Ht.
  hsimpl.
  destruct (decide (t = "init")); [done |].
  hsimpl.
  done.
Qed.

End HandlerFacts.

Section HandlerClaims.

Variable json_loads : string → result json.
Variable py_format : json → string.



(** *** Lines for a key without a session *)

Lemma for_each_M_untracked (battle : string) (h : handler) (pokes : list json) :
  activeBattles h !! battle = None →
  ∃ r, runM (for_each_M (λ poke,
           b ← session battle;
           p ← lift (read_pokemon poke);
           set_session battle (Battle.with_me (Side.updateTeam p) b)) pokes) h
       = (r, h).
Proof.
  intros E. destruct pokes as [|poke pokes]; [by eexists |].
  eexists. cbn -[getitem]. by rewrite (getitem_None _ _ E).
Qed.

Lemma on_request_untracked (battle : string) (msg : list string) (h : handler) :
  activeBattles h !! battle = None →
  ∃ r, runM (on_request json_loads battle msg) h = (r, h).
Proof.
  intros E. unfold on_request.
  msimpl.
  destruct (list_index msg 2) as [payload|]; [| by eexists].
  msimpl.
  destruct (json_loads payload) as [request|]; [| by eexists].
  msimpl.
  destruct (PyVal.contains "rqid" request) as [[]|]; [| | by eexists];
    msimpl.
  - destruct (PyVal.subscript request "rqid"); [| by eexists].
    msimpl. rewrite (getitem_None _ _ E). by eexists.
  - destruct (PyVal.subscript request "side") as [sidedata|]; [| by eexists].
    msimpl.
    destruct (PyVal.subscript sidedata "pokemon") as [l|]; [| by eexists].
    msimpl.
    destruct (PyVal.iter l) as [pokes|]; [| by eexists].
    msimpl.
    destruct (for_each_M_untracked battle h pokes E) as [r Hr].
    exists r. exact Hr.
Qed.

Lemma session_lines_untracked (raw : nat) (battle : string) (msg : list string)
    (h : handler) :
  activeBattles h !! battle = None →
  runM (on_poke battle msg) h = (Raise KeyError, h) ∧
  (∃ e, runM (on_player battle msg) h = (Raise e, h)) ∧
  runM (on_teampreview py_format raw battle) h = (Raise KeyError, h) ∧
  runM (on_turn py_format raw battle) h = (Raise KeyError, h) ∧
  runM (on_switch battle msg) h = (Raise KeyError, h).
Proof.
  intros E. repeat split.
  - unfold on_poke. msimpl. by rewrite (getitem_None _ _ E).
  - unfold on_player. msimpl.
    destruct (list_index msg 3); [| by eexists].
    msimpl. rewrite (getitem_None _ _ E). by eexists.
  - unfold on_teampreview, randint. msimpl. by rewrite (getitem_None _ _ E).
  - unfold on_turn. msimpl. by rewrite (getitem_None _ _ E).
  - unfold on_switch. msimpl. by rewrite (getitem_None _ _ E).
Qed.

End HandlerClaims.

Lemma tracked_lookup (battle : string) (h : handler) :
  tracked battle h ↔ is_Some (activeBattles h !! battle).
Proof. unfold tracked. apply elem_of_dom. Qed.

Lemma untracked_lookup (battle : string) (h : handler) :
  ¬ tracked battle h ↔ activeBattles h !! battle = None.
Proof. unfold tracked. apply not_elem_of_dom. Qed.

Lemma guard_off_untracked (battle msg : string) (h : handler) :
  ¬ tracked battle h →
  bool_decide (battle ∈ dom (activeBattles h)) && PyStr.contains "init" msg = false.
Proof. intros Hn. by rewrite bool_decide_false. Qed.

Lemma guard_off_no_init (battle msg : string) (h : handler) :
  PyStr.contains "init" msg = false →
  bool_decide (battle ∈ dom (activeBattles h)) && PyStr.contains "init" msg = false.
Proof. intros ->. apply andb_false_r. Qed.

Lemma tag_nonempty (msg t : string) : tag_of msg = Ok t → msg ≠ "".
Proof. by intros Ht ->. Qed.

Section HandlerTheorems.

Variable json_loads : string → result json.
Variable py_format : json → string.



(** C3 (as amended): for a tracked key, a [win] or [tie] line that has a
    winner field and does not contain the letters [init] sends the closing
    remark, chosen by whether the winner is the bot, and then [/leave];
    the session table is left as it was, so the session stays tracked. *)
Theorem end_of_battle_keeps_session (raw : nat) (battle msg : string)
    (h : handler) (t winner : string) :
  tracked battle h →
  PyStr.contains "init" msg = false →
  tag_of msg = Ok t → t ∈ ["win"; "tie"] →
  list_index (fields msg) 2 = Ok winner →
  runM (parse json_loads py_format raw battle msg) h =
    (Ok (), after_sending h [battle ++ "|" ++ closing_remark h winner;
                             battle ++ "|/leave"]) ∧
  tracked battle
    (after_sending h [battle ++ "|" ++ closing_remark h winner;
                      battle ++ "|/leave"]).
Proof.
  intros Htr Hc Ht Hin Hw. split; [| exact Htr].
  rewrite (parse_dispatch _ _ _ _ _ _ t (tag_nonempty _ _ Ht)
             (guard_off_no_init _ _ _ Hc) Ht).
  - rewrite bool_decide_true by done.
    tag_cases; repeat (case_decide; [discriminate |]); by apply on_end_run.
  - intros ->. tag_cases.
Qed.

(** [list_index] raises nothing but [IndexError]. *)
Lemma list_index_raise {A : Type} (xs : list A) (k : Z) (e : exn) :
  list_index xs k = Raise e → e = IndexError.
Proof.
  unfold list_index. cbv zeta.
  destruct (_ <? 0)%Z; [congruence |].
  destruct (xs !! _); congruence.
Qed.

Lemma on_player_untracked (battle : string) (msg : list string) (h : handler) :
  activeBattles h !! battle = None →
  runM (on_player battle msg) h =
    (Raise (match list_index msg 3 with
            | Ok _ => KeyError
            | Raise _ => IndexError
            end), h).
Proof.
  intros E. unfold on_player. msimpl.
  destruct (list_index msg 3) as [who | e] eqn:E3.
  - msimpl. by rewrite (getitem_None _ _ E).
  - by rewrite (list_index_raise _ _ _ E3).
Qed.

Lemma on_end_no_winner (battle : string) (msg : list string) (h : handler) :
  (∀ winner, list_index msg 2 ≠ Ok winner) →
  runM (on_end battle msg) h = (Raise IndexError, h).
Proof.
  intros Hno. unfold on_end. msimpl.
  destruct (list_index msg 2) as [winner | e] eqn:E2.
  - by destruct (Hno winner).
  - by rewrite (list_index_raise _ _ _ E2).
Qed.

Lemma on_request_untracked_rqid (battle : string) (msg : list string)
    (h : handler) (payload : string) (kv : list (string * json)) :
  activeBattles h !! battle = None →
  list_index msg 2 = Ok payload →
  json_loads payload = Ok (JObj kv) →
  is_Some (PyVal.assoc "rqid" kv) →
  runM (on_request json_loads battle msg) h = (Raise KeyError, h).
Proof.
  intros E E2 Hl [r Hr]. unfold on_request. msimpl.
  rewrite E2. msimpl. rewrite Hl. msimpl.
  rewrite bool_decide_true by (by rewrite Hr). msimpl.
  rewrite Hr. msimpl. by rewrite (getitem_None _ _ E).
Qed.

Lemma on_request_untracked_roster (battle : string) (msg : list string)
    (h : handler) (payload : string) (request sidedata l : json)
    (pokes : list json) :
  activeBattles h !! battle = None →
  list_index msg 2 = Ok payload →
  json_loads payload = Ok request →
  PyVal.contains "rqid" request = Ok false →
  PyVal.subscript request "side" = Ok sidedata →
  PyVal.subscript sidedata "pokemon" = Ok l →
  PyVal.iter l = Ok pokes →
  runM (on_request json_loads battle msg) h =
    (match pokes with [] => Ok () | _ :: _ => Raise KeyError end, h).
Proof.
  intros E E2 Hl Hc Hs Hp Hi. unfold on_request. msimpl.
  rewrite E2. msimpl. rewrite Hl. msimpl. rewrite Hc. msimpl.
  rewrite Hs. msimpl. rewrite Hp. msimpl. rewrite Hi. msimpl.
  destruct pokes as [| poke pokes]; [done |].
  cbn -[getitem]. by rewrite (getitem_None _ _ E).
Qed.

(** The empty line, and a line that has no second field. *)
Lemma parse_untagged (raw : nat) (battle msg : string) (h : handler) (e : exn) :
  ¬ tracked battle h →
  tag_of msg = Raise e →
  runM (parse json_loads py_format raw battle msg) h =
    (if decide (msg = "") then Ok () else Raise IndexError, h).
Proof.
  intros Hun Ht. unfold parse.
  destruct (decide (msg = "")); [done |].
  hsimpl. rewrite (guard_off_untracked _ _ _ Hun).
  fold (fields msg). unfold tag_of in Ht. hsimpl. rewrite Ht.
  by rewrite (list_index_raise _ _ _ Ht).
Qed.

(** A line with the tag [init] that is not [init battle]. *)
Lemma parse_init_other (raw : nat) (battle msg : string) (h : handler) :
  ¬ tracked battle h →
  ¬ is_init_battle msg →
  tag_of msg = Ok "init" →
  runM (parse json_loads py_format raw battle msg) h =
    (match list_index (fields msg) 2 with
     | Ok _ => Ok ()
     | Raise _ => Raise IndexError
     end, h).
Proof.
  intros Hun Hni Ht. unfold parse.
  destruct (decide (msg = "")) as [-> |]; [done |].
  hsimpl. rewrite (guard_off_untracked _ _ _ Hun).
  fold (fields msg). unfold tag_of in Ht. hsimpl. rewrite Ht. hsimpl.
  destruct (list_index (fields msg) 2) as [f2 | e] eqn:E2; hsimpl.
  - rewrite (bool_decide_false (f2 = "battle")) by (intros ->; by apply Hni).
    rewrite (bool_decide_false ("init" ∈ _)) by (intros ?; tag_cases).
    by repeat (case_decide; try done).
  - by rewrite (list_index_raise _ _ _ E2).
Qed.

(** C8 (as amended): for a key without a session and a line that is not
    [init battle], the session table and the bot name are never changed.
    A [win]/[tie] line with a winner field still sends the closing remark
    and [/leave]; every other line sends nothing and leaves the handler as
    it was.  The empty line, a line whose tag no branch handles, and an
    [init] line whose third field is not [battle] return without raising:
    for them the no-op holds in full.  A [poke], [player], [teampreview],
    [turn] or [switch] line raises [KeyError] or [IndexError] instead of
    returning; an [init], [win] or [tie] line without a third field and a
    non-empty line without a tag raise [IndexError]; a [request] line
    raises [KeyError] when its payload is an object with [rqid] or,
    without [rqid], has a non-empty [pokemon] list, and returns when that
    list is empty. *)
Theorem unknown_session_outcome (raw : nat) (battle msg : string) (h : handler) :
  ¬ tracked battle h →
  ¬ is_init_battle msg →
  let out := runM (parse json_loads py_format raw battle msg) h in
  activeBattles out.2 = activeBattles h ∧
  botName out.2 = botName h ∧
  (∀ t winner, tag_of msg = Ok t → t ∈ ["win"; "tie"] →
     list_index (fields msg) 2 = Ok winner →
     out = (Ok (), after_sending h [battle ++ "|" ++ closing_remark h winner;
                                    battle ++ "|/leave"])) ∧
  (¬ (∃ t winner, tag_of msg = Ok t ∧ t ∈ ["win"; "tie"] ∧
                  list_index (fields msg) 2 = Ok winner) →
   out.2 = h) ∧
  (msg = "" → out = (Ok (), h)) ∧
  (∀ t, tag_of msg = Ok t →
     t ∉ ["init"; "request"; "poke"; "player"; "teampreview"; "turn";
          "switch"; "win"; "tie"] →
     out = (Ok (), h)) ∧
  (∀ f2, tag_of msg = Ok "init" → list_index (fields msg) 2 = Ok f2 →
     out = (Ok (), h)) ∧
  (∀ t, tag_of msg = Ok t →
     t ∈ ["poke"; "player"; "teampreview"; "turn"; "switch"] →
     ∃ e, e ∈ [KeyError; IndexError] ∧ out = (Raise e, h)) ∧
  (∀ t, tag_of msg = Ok t → t ∈ ["init"; "win"; "tie"] →
     (∀ f2, list_index (fields msg) 2 ≠ Ok f2) →
     out = (Raise IndexError, h)) ∧
  (∀ e, msg ≠ "" → tag_of msg = Raise e → out = (Raise IndexError, h)) ∧
  (∀ payload kv, tag_of msg = Ok "request" →
     list_index (fields msg) 2 = Ok payload →
     json_loads payload = Ok (JObj kv) →
     is_Some (PyVal.assoc "rqid" kv) →
     out = (Raise KeyError, h)) ∧
  (∀ payload request sidedata l pokes, tag_of msg = Ok "request" →
     list_index (fields msg) 2 = Ok payload →
     json_loads payload = Ok request →
     PyVal.contains "rqid" request = Ok false →
     PyVal.subscript request "side" = Ok sidedata →
     PyVal.subscript sidedata "pokemon" = Ok l →
     PyVal.iter l = Ok pokes →
     out = (match pokes with [] => Ok () | _ :: _ => Raise KeyError end, h)).
Proof.
  intros Hun Hni. cbv zeta.
  pose proof (proj1 (untracked_lookup _ _) Hun) as E.
  destruct (tag_of msg) as [t | e] eqn:Ht.
  - (* the line has a tag *)
    pose proof (tag_nonempty _ _ Ht) as Hne.
    destruct (decide (t = "init")) as [-> | Hinit].
    { rewrite (parse_init_other _ _ _ _ Hun Hni Ht).
      split_and!; try done; try other_tag.
      - intros f2 _ ->. done.
      - intros t _ _ Hno.
        destruct (list_index (fields msg) 2) as [f2 |]; [by destruct (Hno f2) | done]. }
    rewrite (parse_dispatch _ _ _ _ _ _ t Hne
               (guard_off_untracked _ _ _ Hun) Ht Hinit).
    destruct (session_lines_untracked py_format raw battle (fields msg) h E)
      as (Hpoke & _ & Hprev & Hturn & Hswitch).
    pose proof (on_player_untracked battle (fields msg) h E) as Hplayer.
    destruct (decide (t = "request")) as [-> | ?].
    { destruct (on_request_untracked json_loads battle (fields msg) h E)
        as [r Hreq].
      split_and!; try done; try other_tag.
      - by rewrite Hreq.
      - by rewrite Hreq.
      - intros _. by rewrite Hreq.
      - intros payload kv _. by apply on_request_untracked_rqid.
      - intros payload request sidedata l pokes _.
        by apply on_request_untracked_roster. }
    destruct (decide (t = "poke")) as [-> | ?].
    { rewrite Hpoke. split_and!; try done; try other_tag.
      intros t _ _. exists KeyError. split; [| done].
      apply elem_of_cons. by left. }
    destruct (decide (t = "player")) as [-> | ?].
    { rewrite Hplayer. split_and!; try done; try other_tag.
      intros t _ _. eexists. split; [| done].
      destruct (list_index (fields msg) 3);
        [apply elem_of_cons; by left
        | apply elem_of_cons; right; apply elem_of_cons; by left]. }
    destruct (decide (t = "teampreview")) as [-> | ?].
    { rewrite Hprev. split_and!; try done; try other_tag.
      intros t _ _. exists KeyError. split; [| done].
      apply elem_of_cons. by left. }
    destruct (decide (t = "turn")) as [-> | ?].
    { rewrite Hturn. split_and!; try done; try other_tag.
      intros t _ _. exists KeyError. split; [| done].
      apply elem_of_cons. by left. }
    destruct (decide (t = "switch")) as [-> | ?].
    { rewrite Hswitch. split_and!; try done; try other_tag.
      intros t _ _. exists KeyError. split; [| done].
      apply elem_of_cons. by left. }
    case_bool_decide as Hend.
    + (* [win] or [tie] *)
      destruct (list_index (fields msg) 2) as [winner | e'] eqn:Hw.
      * rewrite (on_end_run _ _ _ _ Hw).
        split_and!; try done; try other_tag.
        -- intros Hno. destruct Hno. by exists t, winner.
        -- intros t' _ _ Hno. by destruct (Hno winner).
      * rewrite on_end_no_winner by (by rewrite Hw).
        split_and!; try done; other_tag.
    + (* a tag that no branch handles *)
      split_and!; try done; other_tag.
  - (* the line is empty or has no second field *)
    rewrite (parse_untagged _ _ _ _ _ Hun Ht).
    destruct (decide (msg = "")); by split_and!.
Qed.

(** C9: an [init battle] line for a key that is already tracked changes
    nothing: the session table, the session and the lines sent are as
    before, and nothing is raised. *)
Theorem init_battle_idempotent (raw : nat) (battle msg : string) (h : handler) :
  tracked battle h →
  is_init_battle msg →
  runM (parse json_loads py_format raw battle msg) h = (Ok (), h).
Proof.
  intros Htr [Htag _]. apply parse_guard; [done |].
  eapply split_field_contains, list_index_elem_of, Htag.
Qed.

(** C10: for a tracked key, any line whose raw text contains the letters
    [init] is dropped before it is split: the handler (session table,
    sessions, rosters, lines sent) is unchanged and nothing is raised. *)
Theorem init_substring_line_dropped (raw : nat) (battle msg : string) (h : handler) :
  tracked battle h →
  PyStr.contains "init" msg = true →
  runM (parse json_loads py_format raw battle msg) h = (Ok (), h).
Proof. intros Htr Hc. by apply parse_guard. Qed.

End HandlerTheorems.

(** ** The scenario, run *)

Lemma ready_session :
  ∃ b, activeBattles Scenario.ready !! "room1" = Some b ∧
       Battle.rqid b = JStr "42" ∧
       Side.active_pokemon (Battle.me b) = Some Scenario.pikachu.
Proof. eexists. split; [vm_compute; reflexivity |]. split; reflexivity. Qed.

Lemma ready_tracked : tracked "room1" Scenario.ready.
Proof. unfold tracked. apply (bool_decide_unpack _). vm_compute. exact I. Qed.

Lemma ready_room2_untracked : ¬ tracked "room2" Scenario.ready.
Proof. unfold tracked. apply (bool_decide_unpack _). vm_compute. exact I. Qed.

(** C2: with request id 42 stored, a [teampreview] line and a random source
    that makes [randint(0, 6)] return its upper end send [/team 6|42]: the
    index is outside 0..5. *)
Theorem teampreview_draws_six :
  randint 0 6 6 = Ok 6%Z ∧
  runM (parse Scenario.json_loads Scenario.py_format 6 "room1" "|teampreview")
       Scenario.ready
  = (Ok (), after_sending Scenario.ready ["room1|/team 6|42"]).
Proof. split; vm_compute; reflexivity. Qed.

(** C4: the active Pokemon has the one-move list [thunderbolt]; a [turn]
    line with a draw that makes [randint(0, 3)] return 1 raises [IndexError]
    and sends nothing. *)
Theorem turn_one_move_index_error :
  Pokemon.moves Scenario.pikachu = JArr [JStr "thunderbolt"] ∧
  randint 0 3 1 = Ok 1%Z ∧
  runM (parse Scenario.json_loads Scenario.py_format 1 "room1" "|turn|1")
       Scenario.ready
  = (Raise IndexError, Scenario.ready).
Proof. split; [reflexivity |]. split; vm_compute; reflexivity. Qed.

Lemma end_removes_session_refuted : ¬ end_removes_session.
Proof.
  intros Hclaim.
  destruct (Hclaim Scenario.json_loads Scenario.py_format 0%nat "room1"
              "|win|BotName" Scenario.ready "win" "BotName" ready_tracked)
    as (_ & _ & Hgone).
  - reflexivity.
  - apply elem_of_cons. by left.
  - reflexivity.
  - vm_compute in Hgone. discriminate Hgone.
Qed.

(** C3, refuted as stated: after [|win|BotName] the session of [room1] is
    still in the table, and the [teampreview] line that follows is answered
    from it; and the line [|win|Trinity], whose text contains the letters
    [init], sends neither the remark nor [/leave]. *)
Lemma end_removes_session_fails :
  (∃ b, activeBattles
          (runM (parse Scenario.json_loads Scenario.py_format 0 "room1" "|win|BotName")
                Scenario.ready).2 !! "room1" = Some b) ∧
  runM (parse_all Scenario.json_loads Scenario.py_format "room1"
          [(0, "|win|BotName"); (3, "|teampreview")]%nat) Scenario.ready
  = (Ok (), after_sending Scenario.ready
              ["room1|O-oh, I won? Sorry :("; "room1|/leave"; "room1|/team 3|42"]) ∧
  runM (parse Scenario.json_loads Scenario.py_format 0 "room1" "|win|Trinity")
       Scenario.ready = (Ok (), Scenario.ready) ∧
  ¬ end_removes_session.
Proof.
  split; [eexists; vm_compute; reflexivity |].
  split; [vm_compute; reflexivity |].
  split; [vm_compute; reflexivity |].
  exact end_removes_session_refuted.
Qed.

Lemma unknown_session_is_noop_refuted : ¬ unknown_session_is_noop.
Proof.
  intros Hclaim.
  pose proof (Hclaim Scenario.json_loads Scenario.py_format 0%nat "room2"
                "|teampreview" Scenario.ready ready_room2_untracked) as H.
  assert (¬ is_init_battle "|teampreview") as Hni.
  { intros [Htag _]. vm_compute in Htag. discriminate Htag. }
  specialize (H Hni). vm_compute in H. discriminate H.
Qed.

(** C8, refuted as stated: for the untracked key [room2], [|teampreview]
    raises [KeyError], and [|win|Someone] sends the closing lines. *)
Lemma unknown_session_is_noop_fails :
  ¬ tracked "room2" Scenario.ready ∧
  runM (parse Scenario.json_loads Scenario.py_format 0 "room2" "|teampreview")
       Scenario.ready = (Raise KeyError, Scenario.ready) ∧
  runM (parse Scenario.json_loads Scenario.py_format 0 "room2" "|win|Someone")
       Scenario.ready
  = (Ok (), after_sending Scenario.ready
              ["room2|It's okay, you're better than me :>"; "room2|/leave"]) ∧
  ¬ unknown_session_is_noop.
Proof.
  split; [exact ready_room2_untracked |].
  split; [vm_compute; reflexivity |].
  split; [vm_compute; reflexivity |].
  exact unknown_session_is_noop_refuted.
Qed.

Lemma end_of_battle_keeps_session_witness :
  tracked "room1" Scenario.ready ∧
  runM (parse Scenario.json_loads Scenario.py_format 0 "room1" "|win|BotName")
       Scenario.ready
  = (Ok (), after_sending Scenario.ready
              ["room1|O-oh, I won? Sorry :("; "room1|/leave"]) ∧
  tracked "room1" (after_sending Scenario.ready
              ["room1|O-oh, I won? Sorry :("; "room1|/leave"]).
Proof.
  split; [exact ready_tracked |].
  apply (end_of_battle_keeps_session Scenario.json_loads Scenario.py_format
           0 "room1" "|win|BotName" Scenario.ready "win" "BotName").
  - exact ready_tracked.
  - reflexivity.
  - reflexivity.
  - apply elem_of_cons. left. reflexivity.
  - reflexivity.
Defined.

Lemma unknown_session_outcome_witness :
  ¬ tracked "room2" Scenario.ready ∧
  ¬ is_init_battle "|turn|3" ∧
  (∃ e, e ∈ [KeyError; IndexError] ∧
        runM (parse Scenario.json_loads Scenario.py_format 0 "room2" "|turn|3")
             Scenario.ready = (Raise e, Scenario.ready)) ∧
  ¬ is_init_battle "|upkeep" ∧
  runM (parse Scenario.json_loads Scenario.py_format 0 "room2" "|upkeep")
       Scenario.ready = (Ok (), Scenario.ready).
Proof.
  assert (¬ is_init_battle "|turn|3") as Hturn.
  { intros [Htag _]. vm_compute in Htag. discriminate Htag. }
  assert (¬ is_init_battle "|upkeep") as Hupkeep.
  { intros [Htag _]. vm_compute in Htag. discriminate Htag. }
  split; [exact ready_room2_untracked |]. split; [exact Hturn |].
  split; [| split; [exact Hupkeep |]].
  - destruct (unknown_session_outcome Scenario.json_loads Scenario.py_format
                0 "room2" "|turn|3" Scenario.ready ready_room2_untracked Hturn)
      as (_ & _ & _ & _ & _ & _ & _ & Hraise & _).
    apply (Hraise "turn"); [reflexivity |].
    apply elem_of_cons. right. apply elem_of_cons. right.
    apply elem_of_cons. right. apply elem_of_cons. left. reflexivity.
  - destruct (unknown_session_outcome Scenario.json_loads Scenario.py_format
                0 "room2" "|upkeep" Scenario.ready ready_room2_untracked Hupkeep)
      as (_ & _ & _ & _ & _ & Hnoop & _).
    apply (Hnoop "upkeep"); [reflexivity |].
    apply (bool_decide_unpack _). vm_compute. exact I.
Defined.

Lemma init_battle_idempotent_witness :
  tracked "room1" Scenario.ready ∧
  is_init_battle "|init|battle" ∧
  runM (parse Scenario.json_loads Scenario.py_format 0 "room1" "|init|battle")
       Scenario.ready = (Ok (), Scenario.ready).
Proof.
  assert (is_init_battle "|init|battle") as Hi by (split; reflexivity).
  split; [exact ready_tracked |]. split; [exact Hi |].
  exact (init_battle_idempotent Scenario.json_loads Scenario.py_format
           0 "room1" "|init|battle" Scenario.ready ready_tracked Hi).
Defined.

Lemma init_substring_line_dropped_witness :
  tracked "room1" Scenario.ready ∧
  PyStr.contains "init" "|win|Trinity" = true ∧
  runM (parse Scenario.json_loads Scenario.py_format 0 "room1" "|win|Trinity")
       Scenario.ready = (Ok (), Scenario.ready).
Proof.
  split; [exact ready_tracked |]. split; [reflexivity |].
  exact (init_substring_line_dropped Scenario.json_loads Scenario.py_format
           0 "room1" "|win|Trinity" Scenario.ready ready_tracked eq_refl).
Defined.

(** * Further properties of the handler *)

Lemma run_bind {A B : Type} (m : M A) (f : A → M B) (h : handler) :
  runM (m ≫= f) h =
    match runM m h with
    | (Ok a, h') => runM (f a) h'
    | (Raise e, h') => (Raise e, h')
    end.
Proof. reflexivity. Qed.

Section Effects.

Variable battle : string.

Lemma confined_bind {A B : Type} (m : M A) (f : A → M B) :
confined battle m → (∀ a, confined battle (f a)) → confined battle (m ≫= f).
Proof.
intros Hm Hf h. rewrite run_bind.
destruct (Hm h) as (Hn & Ho & Ht).
destruct (runM m h) as [[a|e] h1]; simpl in *; [| done].
destruct (Hf a h1) as (Hn' & Ho' & Ht').
split; [congruence |]. split; [| by auto].
intros other Hne. by rewrite Ho', Ho.
Qed.

Lemma confined_pure {A : Type} (g : handler → result A) :
confined battle (MkM (λ h, (g h, h))).
Proof. by intros h. Qed.

Lemma confined_ws_send (line : string) : confined battle (ws_send line).
Proof. by intros h. Qed.

Lemma confined_set_session (b : Battle.t) : confined battle (set_session battle b).
Proof.
intros h. simpl. split; [done |]. split.
- intros other Hne. by rewrite lookup_insert_ne.
- intros _. unfold tracked. simpl. rewrite dom_insert_L. set_solver.
Qed.

Lemma confined_session : confined battle (session battle).
Proof. apply confined_bind; [apply confined_pure | intros h'; apply confined_pure]. Qed.

Lemma confined_for_each {A : Type} (body : A → M unit) (xs : list A) :
(∀ x, confined battle (body x)) → confined battle (for_each_M body xs).
Proof.
intros Hb. induction xs as [|x xs IH]; [apply confined_pure |].
apply confined_bind; [apply Hb | by intros _].
Qed.

Lemma silent_bind {A B : Type} (m : M A) (f : A → M B) :
silent m → (∀ a, silent (f a)) → silent (m ≫= f).
Proof.
intros Hm Hf h. rewrite run_bind. specialize (Hm h).
destruct (runM m h) as [[a|e] h1]; simpl in *; [| done].
by rewrite Hf.
Qed.

Lemma silent_pure {A : Type} (g : handler → result A) :
silent (MkM (λ h, (g h, h))).
Proof. by intros h. Qed.

Lemma silent_set_session (k : string) (b : Battle.t) : silent (set_session k b).
Proof. by intros h. Qed.

Lemma silent_session (k : string) : silent (session k).
Proof. apply silent_bind; [apply silent_pure | intros h'; apply silent_pure]. Qed.

Lemma silent_for_each {A : Type} (body : A → M unit) (xs : list A) :
(∀ x, silent (body x)) → silent (for_each_M body xs).
Proof.
intros Hb. induction xs as [|x xs IH]; [apply silent_pure |].
apply silent_bind; [apply Hb | by intros _].
Qed.

Lemma emits_bind {A B : Type} (n1 n2 : nat) (m : M A) (f : A → M B) :
emits battle n1 m → (∀ a, emits battle n2 (f a)) →
emits battle (n1 + n2) (m ≫= f).
Proof.
intros Hm Hf h. rewrite run_bind.
destruct (Hm h) as (new1 & Hs1 & Hl1 & Hp1).
destruct (runM m h) as [[a|e] h1]; simpl in *.
- destruct (Hf a h1) as (new2 & Hs2 & Hl2 & Hp2).
  exists (new1 ++ new2)%list. split; [by rewrite Hs2, Hs1, <- app_assoc |].
  split; [rewrite length_app; lia | by apply Forall_app].
- exists new1. split; [done |]. split; [lia | done].
Qed.

Lemma emits_silent {A : Type} (m : M A) : silent m → emits battle 0 m.
Proof.
intros Hm h. exists []. rewrite Hm, app_nil_r. by split; [| split; [| constructor]].
Qed.

Lemma emits_weaken {A : Type} (n n' : nat) (m : M A) :
(n ≤ n')%nat → emits battle n m → emits battle n' m.
Proof.
intros Hle Hm h. destruct (Hm h) as (new & Hs & Hl & Hp).
exists new. split; [done |]. split; [lia | done].
Qed.

Lemma emits_respond (msg : string) : emits battle 1 (respond battle msg).
Proof.
intros h. exists [battle ++ "|" ++ msg]. simpl. split; [done |]. split; [done |].
constructor; [| constructor].
rewrite <- append_assoc. apply startswith_app.
Qed.

Lemma returns_respond (msg : string) : returns (respond battle msg).
Proof. intros h. by exists (). Qed.

Lemma raises_before_sending_silent {A : Type} (m : M A) :
silent m → raises_before_sending m.
Proof. intros Hm h e _. apply Hm. Qed.

Lemma raises_before_sending_returns {A : Type} (m : M A) :
returns m → raises_before_sending m.
Proof. intros Hm h e He. destruct (Hm h) as [a Ha]. congruence. Qed.

Lemma raises_before_sending_bind {A B : Type} (m : M A) (f : A → M B) :
silent m → (∀ a, raises_before_sending (f a)) → raises_before_sending (m ≫= f).
Proof.
intros Hm Hf h e. rewrite run_bind. specialize (Hm h).
destruct (runM m h) as [[a|e'] h1]; simpl in *; [| done].
intros He. rewrite <- Hm. by eapply Hf.
Qed.

End Effects.

Section HandlerEffects.

Variable json_loads : string → result json.
Variable py_format : json → string.
Variable battle : string.

Ltac confine :=
repeat first
  [ apply confined_bind; [| intros ?]
  | apply confined_session
  | apply confined_set_session
  | apply confined_ws_send
  | apply confined_pure
  | apply confined_for_each; intros ?
  | progress unfold lift, get_handler, respond
  | match goal with |- confined _ (if ?c then _ else _) => destruct c end
  | match goal with |- confined _ (match ?c with _ => _ end) => destruct c end ].

Ltac hush :=
repeat first
  [ apply silent_bind; [| intros ?]
  | apply silent_session
  | apply silent_set_session
  | apply silent_pure
  | apply silent_for_each; intros ?
  | progress unfold lift, get_handler
  | match goal with |- silent (if ?c then _ else _) => destruct c end
  | match goal with |- silent (match ?c with _ => _ end) => destruct c end ].

Lemma confined_branches (raw : nat) (msg : list string) :
confined battle (on_init battle) ∧
confined battle (on_request json_loads battle msg) ∧
confined battle (on_poke battle msg) ∧
confined battle (on_player battle msg) ∧
confined battle (on_teampreview py_format raw battle) ∧
confined battle (on_turn py_format raw battle) ∧
confined battle (on_switch battle msg) ∧
confined battle (on_end battle msg).
Proof.
unfold on_init, on_request, on_poke, on_player, on_teampreview, on_turn,
  on_switch, on_end.
split_and!; confine.
Qed.

Lemma silent_branches (msg : list string) :
silent (on_request json_loads battle msg) ∧
silent (on_poke battle msg) ∧
silent (on_player battle msg) ∧
silent (on_switch battle msg).
Proof.
unfold on_request, on_poke, on_player, on_switch.
split_and!; hush.
Qed.

Lemma emits_branches (raw : nat) (msg : list string) :
emits battle 1 (on_init battle) ∧
emits battle 1 (on_teampreview py_format raw battle) ∧
emits battle 1 (on_turn py_format raw battle) ∧
emits battle 2 (on_end battle msg).
Proof.
unfold on_init, on_teampreview, on_turn, on_end. split_and!.
- apply (emits_bind battle 0 1); [apply emits_silent, silent_set_session |].
  intros _. apply emits_respond.
- apply (emits_bind battle 0 1); [apply emits_silent; hush | intros nr].
  apply (emits_bind battle 0 1); [apply emits_silent; hush | intros b].
  apply emits_respond.
- apply (emits_bind battle 0 1); [apply emits_silent; hush | intros b].
  apply (emits_bind battle 0 1); [apply emits_silent; hush | intros a].
  apply (emits_bind battle 0 1); [apply emits_silent; hush | intros k].
  apply (emits_bind battle 0 1); [apply emits_silent; hush | intros move].
  apply (emits_bind battle 0 1); [apply emits_silent; hush | intros b'].
  apply emits_respond.
- apply (emits_bind battle 0 2); [apply emits_silent; hush | intros winner].
  apply (emits_bind battle 0 2); [apply emits_silent; hush | intros h].
  apply (emits_bind battle 1 1); [| intros _; apply emits_respond].
  destruct (decide _); apply emits_respond.
Qed.

Lemma raising_branches (raw : nat) (msg : list string) :
raises_before_sending (on_init battle) ∧
raises_before_sending (on_teampreview py_format raw battle) ∧
raises_before_sending (on_turn py_format raw battle) ∧
raises_before_sending (on_end battle msg).
Proof.
unfold on_init, on_teampreview, on_turn, on_end. split_and!.
- apply raises_before_sending_returns. intros h. by exists ().
- apply raises_before_sending_bind; [hush | intros nr].
  apply raises_before_sending_bind; [hush | intros b].
  apply raises_before_sending_returns, returns_respond.
- apply raises_before_sending_bind; [hush | intros b].
  apply raises_before_sending_bind; [hush | intros a].
  apply raises_before_sending_bind; [hush | intros k].
  apply raises_before_sending_bind; [hush | intros move].
  apply raises_before_sending_bind; [hush | intros b'].
  apply raises_before_sending_returns, returns_respond.
- apply raises_before_sending_bind; [hush | intros winner].
  apply raises_before_sending_bind; [hush | intros h].
  apply raises_before_sending_returns. intros h'.
  destruct (decide _); by exists ().
Qed.

(** The dispatch of [parse], as a case analysis for an effect [P] that every
  branch has and that the silent steps before the dispatch keep. *)
Lemma parse_effect (P : M unit → Prop) (raw : nat) (msg : string) :
(∀ (A : Type) (m : M A) (f : A → M unit),
   silent m → confined battle m → (∀ a, P (f a)) → P (m ≫= f)) →
P (mret ()) →
P (on_init battle) →
(∀ l, P (on_request json_loads battle l)) →
(∀ l, P (on_poke battle l)) →
(∀ l, P (on_player battle l)) →
P (on_teampreview py_format raw battle) →
P (on_turn py_format raw battle) →
(∀ l, P (on_switch battle l)) →
(∀ l, P (on_end battle l)) →
P (parse json_loads py_format raw battle msg).
Proof.
intros Hbind Hret Hinit Hreq Hpoke Hplayer Hprev Hturn Hswitch Hend.
unfold parse. destruct (decide (msg = "")); [done |].
apply Hbind; [apply silent_pure | apply confined_pure | intros h].
destruct (_ && _); [done |].
apply Hbind; [apply silent_pure | apply confined_pure | intros tag].
apply Hbind.
{ destruct (decide (tag = "init")); [| apply silent_pure].
  apply silent_bind; [apply silent_pure | intros ?; apply silent_pure]. }
{ destruct (decide (tag = "init")); [| apply confined_pure].
  apply confined_bind; [apply confined_pure | intros ?; apply confined_pure]. }
intros [|]; [done |].
repeat (case_decide; [done |]).
by case_bool_decide.
Qed.

Lemma parse_confined (raw : nat) (msg : string) :
confined battle (parse json_loads py_format raw battle msg).
Proof.
apply parse_effect.
- intros A m f _ Hm Hf. by apply confined_bind.
- apply confined_pure.
- apply (confined_branches raw []).
- intros l. apply (confined_branches raw l).
- intros l. apply (confined_branches raw l).
- intros l. apply (confined_branches raw l).
- apply (confined_branches raw []).
- apply (confined_branches raw []).
- intros l. apply (confined_branches raw l).
- intros l. apply (confined_branches raw l).
Qed.

(** X1: Every session but that of the battle a line is for is left as it was,
  whatever the line and whether or not handling it raises. *)
Theorem parse_keeps_other_sessions (raw : nat) (msg : string) (h : handler)
  (other : string) :
other ≠ battle →
activeBattles (runM (parse json_loads py_format raw battle msg) h).2 !! other
= activeBattles h !! other.
Proof.
intros Hne.
pose proof (parse_confined raw msg) as Hc.
by apply Hc.
Qed.

(** X2: No line removes a session: a key that is tracked stays tracked. *)
Theorem parse_never_removes_session (raw : nat) (msg : string) (h : handler)
  (key : string) :
tracked key h →
tracked key (runM (parse json_loads py_format raw battle msg) h).2.
Proof.
intros Htr.
pose proof (parse_confined raw msg) as Hc.
destruct (Hc h) as (_ & Hother & Hsame).
destruct (decide (key = battle)) as [-> | Hne]; [by apply Hsame |].
apply tracked_lookup. rewrite (Hother key Hne). by apply tracked_lookup.
Qed.

(** X3: Handling one line keeps the lines sent so far, adds at most two lines, and
  each added line is addressed to the room of the battle. *)
Theorem parse_sends_to_own_room (raw : nat) (msg : string) (h : handler) :
∃ new,
  sent (runM (parse json_loads py_format raw battle msg) h).2
  = (sent h ++ new)%list ∧
  (length new ≤ 2)%nat ∧
  Forall (λ line, PyStr.startswith (battle ++ "|") line = true) new.
Proof.
assert (emits battle 2 (parse json_loads py_format raw battle msg)) as He;
  [| exact (He h)].
apply parse_effect.
- intros A m f Hm _ Hf. apply (emits_bind battle 0 2); [by apply emits_silent | done].
- eapply emits_weaken; [| apply emits_silent, silent_pure]. lia.
- eapply emits_weaken; [| apply (emits_branches 0 [])]. lia.
- intros l. eapply emits_weaken; [| apply emits_silent, silent_branches]. lia.
- intros l. eapply emits_weaken; [| apply emits_silent, silent_branches]. lia.
- intros l. eapply emits_weaken; [| apply emits_silent, silent_branches]. lia.
- eapply emits_weaken; [| apply (emits_branches raw [])]. lia.
- eapply emits_weaken; [| apply (emits_branches raw [])]. lia.
- intros l. eapply emits_weaken; [| apply emits_silent, silent_branches]. lia.
- intros l. apply (emits_branches raw l).
Qed.

(** X4: When handling a line raises, no line has been sent for it. *)
Theorem parse_raises_before_sending (raw : nat) (msg : string) (h : handler)
  (e : exn) :
(runM (parse json_loads py_format raw battle msg) h).1 = Raise e →
sent (runM (parse json_loads py_format raw battle msg) h).2 = sent h.
Proof.
revert h e.
change (raises_before_sending (parse json_loads py_format raw battle msg)).
apply parse_effect.
- intros A m f Hm _ Hf. by apply raises_before_sending_bind.
- apply raises_before_sending_silent, silent_pure.
- apply (raising_branches 0 []).
- intros l. apply raises_before_sending_silent, silent_branches.
- intros l. apply raises_before_sending_silent, silent_branches.
- intros l. apply raises_before_sending_silent, silent_branches.
- apply (raising_branches raw []).
- apply (raising_branches raw []).
- intros l. apply raises_before_sending_silent, silent_branches.
- intros l. apply (raising_branches raw l).
Qed.

End HandlerEffects.

(** ** Fields of a line *)

Lemma split_go_head (sep : ascii) (s cur : string) :
  ∃ rest, PyStr.split_go sep cur s = (String.rev cur ++ upto sep s) :: rest.
Proof.
  revert cur. induction s as [|c s IH]; intros cur; simpl.
  - exists []. unfold String.rev. by rewrite rev_app_append.
  - destruct (Ascii.eqb c sep).
    + eexists. unfold String.rev. by rewrite rev_app_append.
    + destruct (IH (String c cur)) as [rest ->]. exists rest.
      by rewrite rev_cons_append.
Qed.

Lemma upto_no_sep (sep : ascii) (s : string) :
  PyStr.contains (String sep "") (upto sep s) = false.
Proof.
  induction s as [|c s IH]; simpl; [done |].
  destruct (Ascii.eqb c sep) eqn:E; simpl; [done |].
  rewrite Ascii.eqb_sym, E. simpl. exact IH.
Qed.

Lemma upto_prefix (sep : ascii) (s : string) :
  s = upto sep s ∨ ∃ rest, s = upto sep s ++ String sep rest.
Proof.
  induction s as [|c s IH]; simpl; [by left |].
  destruct (Ascii.eqb_spec c sep) as [-> | Hne].
  - right. by exists s.
  - destruct IH as [IH | [rest IH]].
    + left. by rewrite <- IH.
    + right. exists rest. by rewrite append_cons, <- IH.
Qed.

Section HandlerMore.

Variable json_loads : string → result json.
Variable py_format : json → string.

(** X8: [getSpecies] on a string never raises: it returns what stands before the
  first comma, which is the whole string when there is no comma. *)
Theorem getSpecies_before_comma (s : string) :
∃ sp, getSpecies (JStr s) = Ok sp ∧
      PyStr.contains "," sp = false ∧
      (s = sp ∨ ∃ rest, s = sp ++ "," ++ rest).
Proof.
exists (upto "," s). split; [| split].
- unfold getSpecies, PyStr.split.
  destruct (split_go_head "," s "") as [rest ->]. reflexivity.
- apply upto_no_sep.
- apply upto_prefix.
Qed.

(** X5: A [request], [poke], [player] or [switch] line never sends anything,
  whether it is handled to the end or raises. *)
Theorem parse_silent_tags (raw : nat) (battle msg : string) (h : handler)
  (t : string) :
tag_of msg = Ok t →
t ∈ ["request"; "poke"; "player"; "switch"] →
sent (runM (parse json_loads py_format raw battle msg) h).2 = sent h.
Proof.
intros Ht Hin.
destruct (bool_decide (battle ∈ dom (activeBattles h)) && PyStr.contains "init" msg)
  eqn:Hg.
- unfold parse. destruct (decide (msg = "")); [done |].
  simpl. by rewrite Hg.
- rewrite (parse_dispatch _ _ _ _ _ _ t (tag_nonempty _ _ Ht) Hg Ht)
    by (intros ->; tag_cases).
  tag_cases; repeat (case_decide; try done);
    apply (silent_branches json_loads battle (fields msg)).
Qed.

(** X6: An [init battle] line for a key without a session creates the session and
  sends the one line [/timer]; the same line handled again changes
  nothing. *)
Theorem init_battle_creates_session (raw raw' : nat) (battle msg : string)
  (h : handler) :
¬ tracked battle h →
is_init_battle msg →
let h1 := Handler (botName h) (<[battle := Battle.new battle]> (activeBattles h))
                  (sent h ++ [battle ++ "|/timer"]) in
runM (parse json_loads py_format raw battle msg) h = (Ok (), h1) ∧
tracked battle h1 ∧
runM (parse json_loads py_format raw' battle msg) h1 = (Ok (), h1).
Proof.
intros Hun [Htag Hb] h1.
assert (tracked battle h1) as Htr.
{ unfold tracked, h1. simpl. rewrite dom_insert_L. set_solver. }
split; [| split; [done |]].
- unfold parse. destruct (decide (msg = "")) as [-> | _]; [done |].
  hsimpl. rewrite (guard_off_untracked _ _ _ Hun). fold (fields msg).
  hsimpl. rewrite Htag. hsimpl.
  destruct (decide ("init" = "init")); [| done].
  hsimpl. rewrite Hb. hsimpl.
  rewrite (bool_decide_true ("battle" = "battle")) by done. reflexivity.
- apply parse_guard; [done |].
  eapply split_field_contains, list_index_elem_of, Htag.
Qed.

(** *** The request id *)





End HandlerMore.

(** * Further properties of the team command *)

Section BuilderMore.

Variable Types : gmap string (gmap string Q).
Variable Pokedex : gmap string dex_entry.
Variable pool : list string.

Lemma size_add_le (team : gset string) (p : string) :
(size (team ∪ {[p]}) ≤ S (size team))%nat.
Proof.
rewrite size_union_alt.
assert (size ({[p]} ∖ team : gset string) ≤ 1)%nat; [| lia].
rewrite <- (size_singleton (C := gset string) p).
apply subseteq_size. set_solver.
Qed.

Lemma fill_full (rnd : list nat) (team t : gset string) :
(size team ≤ TEAM_SIZE)%nat →
(∀ p, p ∈ team → p ∈ pool) →
fill pool team rnd = Returned t →
size t = TEAM_SIZE ∧ ∀ p, p ∈ t → p ∈ pool.
Proof.
revert team. induction rnd as [|raw rnd IH]; intros team Hsz Hsub; simpl;
  destruct (decide (size team < TEAM_SIZE)%nat) as [Hlt | Hge].
- done.
- intros [= <-]. split; [lia | done].
- destruct (draw pool raw) as [poke|] eqn:Hd; [| done].
  apply IH.
  + pose proof (size_add_le team poke). lia.
  + intros p [Hp | ->%elem_of_singleton]%elem_of_union; [by apply Hsub |].
    by eapply draw_elem_of.
- intros [= <-]. split; [lia | done].
Qed.

Lemma build_loop_full (rnd : list nat) (team : gset string) (attempts : nat)
  (t : gset string) (path : exit_path) :
(size team < TEAM_SIZE)%nat →
(∀ p, p ∈ team → p ∈ pool) →
build_loop Types Pokedex pool team attempts rnd = Returned (t, path) →
size t = TEAM_SIZE ∧ ∀ p, p ∈ t → p ∈ pool.
Proof.
revert team attempts. induction rnd as [|raw rnd IH]; intros team attempts Hsz Hsub;
  simpl; unfold keep_going;
  (destruct (decide (size team < TEAM_SIZE)%nat) as [_ | Hge]; [| lia]);
  [done |].
destruct (draw pool raw) as [poke|] eqn:Hd; [| done].
apply draw_elem_of in Hd.
case_bool_decide; [by apply IH |].
destruct (has_mega team && PyStr.contains "-Mega" poke); [by apply IH |].
destruct (acceptableWeakness Types Pokedex (team ∪ {[poke]})) as [acc|]; [| done].
set (team2 := if acc then team ∪ {[poke]} else (team ∪ {[poke]}) ∖ {[poke]}).
assert (∀ p, p ∈ team2 → p ∈ pool) as Hsub2.
{ intros p Hp. subst team2. destruct acc.
  - apply elem_of_union in Hp as [Hp | ->%elem_of_singleton]; [by apply Hsub | done].
  - apply Hsub. set_solver. }
assert (size team2 ≤ TEAM_SIZE)%nat as Hsz2.
{ subst team2. pose proof (size_add_le team poke). destruct acc; [lia |].
  assert (size ((team ∪ {[poke]}) ∖ {[poke]}) ≤ size (team ∪ {[poke]}))%nat
    by (apply subseteq_size; set_solver).
  lia. }
destruct (decide (TEAM_SIZE ≤ size team2)%nat).
- intros [= <- <-]. split; [lia | done].
- destruct (decide (MAX_ATTEMPTS ≤ S attempts)%nat); [| apply IH; [lia | done]].
  destruct (fill pool team2 rnd) as [t'| |] eqn:Hfill; [| done | done].
  intros [= <- <-]. by eapply fill_full.
Qed.

(** X9: Every team the command returns, on either path, has exactly six members,
  and each of them is a species of the pool. *)
Theorem returned_team_is_full (rnd : list nat) (team : gset string)
  (path : exit_path) :
build_team Types Pokedex pool rnd = Returned (team, path) →
size team = TEAM_SIZE ∧ ∀ p, p ∈ team → p ∈ pool.
Proof.
apply build_loop_full.
- rewrite size_empty. unfold TEAM_SIZE. lia.
- intros p Hp. set_solver.
Qed.



(** *** [acceptableWeakness] at the edges *)

Lemma count_le_length (f : string → bool) (ps : list string) :
(count f ps ≤ length ps)%nat.
Proof. unfold count. apply length_filter. Qed.

(** X13: A team of one catalogued species always passes: the first draw of the
  team command is never withdrawn for balance. *)
Theorem single_member_acceptable (p : string) :
catalogued Types Pokedex {[p]} →
acceptableWeakness Types Pokedex {[p]} = Ok true.
Proof.
intros Hcat.
destruct (acceptableWeakness_decides Types Pokedex {[p]} Hcat) as (b & Hrun & Hb).
rewrite Hrun. f_equal. apply Hb. split; [set_solver |].
intros t _.
assert (weak_count Types Pokedex t {[p]} ≤ 1)%nat as Hw.
{ unfold weak_count. rewrite elements_singleton. apply count_le_length. }
lia.
Qed.

Lemma for_each_raises {A S : Type} (body : S → A → result S) (xs : list A)
  (x : A) (acc : S) :
x ∈ xs →
(∀ acc', ∃ e, body acc' x = Raise e) →
∃ e, for_each body xs acc = Raise e.
Proof.
intros Hin Hx. revert acc. induction xs as [|y xs IH]; intros acc.
- by apply elem_of_nil in Hin.
- simpl. apply elem_of_cons in Hin as [<- | Hin].
  + destruct (Hx acc) as [e ->]. by exists e.
  + destruct (body acc y) as [acc'|e]; [by apply IH | by exists e].
Qed.

(** X14: A team with a member that the Pokedex does not list makes
  [acceptableWeakness] raise: it never answers for such a team. *)
Theorem unlisted_member_never_answered (team : gset string) (p : string) :
p ∈ team →
Pokedex !! p = None →
∃ e, acceptableWeakness Types Pokedex team = Raise e.
Proof.
intros Hp Hnone. unfold acceptableWeakness.
rewrite decide_False by set_solver. simpl.
destruct (for_each_raises (tally_poke Types Pokedex) (elements team) p
            (gset_to_gmap (Tally 0 0) (dom Types))) as [e ->].
- by apply elem_of_elements.
- intros acc'. exists KeyError. unfold tally_poke, getitem. by rewrite Hnone.
- by exists e.
Qed.

End BuilderMore.

(** * Base species *)

Lemma append_nil_r (s : string) : s ++ "" = s.
Proof. induction s as [|c s IH]; [done |]. by rewrite append_cons, IH. Qed.

Lemma startswith_weaken (p q s : string) :
  PyStr.startswith (p ++ q) s = true → PyStr.startswith p s = true.
Proof.
  revert s. induction p as [|a p IH]; intros s; [done |].
  rewrite append_cons. destruct s as [|b s]; cbn -[Ascii.eqb]; [done |].
  destruct (Ascii.eqb a b); [apply IH | done].
Qed.

(** A pattern without a dash matches at the start of [x ++ sfx] exactly when
    it matches at the start of [x], if [sfx] is empty or starts with a
    dash. *)
Lemma startswith_before_dash (p x sfx : string) :
  PyStr.contains "-" p = false →
  sfx = "" ∨ (∃ s', sfx = String "-" s') →
  p ≠ "" →
  PyStr.startswith p (x ++ sfx) = PyStr.startswith p x.
Proof.
  intros Hp Hsfx. revert x. induction p as [|a p IH]; intros x Hne; [done |].
  cbn -[Ascii.eqb] in Hp. apply orb_false_iff in Hp as [Ha Hp].
  assert (Ascii.eqb a "-" = false) as Ha'.
  { rewrite Ascii.eqb_sym. by destruct (Ascii.eqb "-" a). }
  destruct x as [|b x].
  - change ("" ++ sfx) with sfx. destruct Hsfx as [-> | [s' ->]]; cbn -[Ascii.eqb]; [done |].
    by rewrite Ha'.
  - rewrite append_cons. cbn -[Ascii.eqb]. destruct (Ascii.eqb a b); [| done].
    destruct p as [|a' p']; [done |]. by apply IH.
Qed.

Lemma no_match_before_dash (c : ascii) (x sfx : string) :
  PyStr.startswith "-Mega" (String c x) = false →
  PyStr.startswith "-Primal" (String c x) = false →
  sfx = "" ∨ (∃ s', sfx = String "-" s') →
  PyStr.form_suffix_match (String c (x ++ sfx)) = None.
Proof.
  intros Hm Hp Hsfx.
  assert (PyStr.startswith "-Mega" (String c (x ++ sfx)) = false) as Hm'.
  { cbn -[Ascii.eqb] in *. destruct (Ascii.eqb "-" c); [| done].
    change (PyStr.startswith "Mega" (x ++ sfx) = false).
    by rewrite startswith_before_dash. }
  assert (PyStr.startswith "-Primal" (String c (x ++ sfx)) = false) as Hp'.
  { cbn -[Ascii.eqb] in *. destruct (Ascii.eqb "-" c); [| done].
    change (PyStr.startswith "Primal" (x ++ sfx) = false).
    by rewrite startswith_before_dash. }
  unfold PyStr.form_suffix_match.
  destruct (PyStr.startswith "-Mega-X" _) eqn:E1.
  { apply (startswith_weaken "-Mega" "-X") in E1. congruence. }
  destruct (PyStr.startswith "-Mega-Y" _) eqn:E2.
  { apply (startswith_weaken "-Mega" "-Y") in E2. congruence. }
  by rewrite Hm', Hp'.
Qed.

Lemma strip_forms_go_app (x sfx : string) :
  PyStr.contains "-Mega" x = false →
  PyStr.contains "-Primal" x = false →
  sfx = "" ∨ (∃ s', sfx = String "-" s') →
  PyStr.strip_forms_go 0 (x ++ sfx) = x ++ PyStr.strip_forms_go 0 sfx.
Proof.
  intros Hm Hp Hsfx. induction x as [|c x IH]; [done |].
  change (PyStr.contains "-Mega" (String c x))
    with (PyStr.startswith "-Mega" (String c x) || PyStr.contains "-Mega" x) in Hm.
  change (PyStr.contains "-Primal" (String c x))
    with (PyStr.startswith "-Primal" (String c x) || PyStr.contains "-Primal" x) in Hp.
  apply orb_false_iff in Hm as [Hm1 Hm2]. apply orb_false_iff in Hp as [Hp1 Hp2].
  rewrite !append_cons.
  change (PyStr.strip_forms_go 0 (String c (x ++ sfx)))
    with (match PyStr.form_suffix_match (String c (x ++ sfx)) with
          | Some n => PyStr.strip_forms_go (Nat.pred n) (x ++ sfx)
          | None => String c (PyStr.strip_forms_go 0 (x ++ sfx))
          end).
  rewrite (no_match_before_dash c x sfx Hm1 Hp1 Hsfx).
  by rewrite IH.
Qed.

(** X12: The base species: a descriptor without a mega or primal marker is its
    own base species, and it is the base species of the descriptor with one
    of the four suffixes [-Mega], [-Mega-X], [-Mega-Y], [-Primal] added. *)
Theorem strip_forms_base_species (x : string) :
  PyStr.contains "-Mega" x = false →
  PyStr.contains "-Primal" x = false →
  PyStr.strip_forms x = x ∧
  PyStr.strip_forms (x ++ "-Mega") = x ∧
  PyStr.strip_forms (x ++ "-Mega-X") = x ∧
  PyStr.strip_forms (x ++ "-Mega-Y") = x ∧
  PyStr.strip_forms (x ++ "-Primal") = x.
Proof.
  intros Hm Hp. unfold PyStr.strip_forms. split_and!.
  - rewrite <- (append_nil_r x) at 1.
    rewrite strip_forms_go_app; [apply append_nil_r | done | done | by left].
  - rewrite strip_forms_go_app; [apply append_nil_r | done | done | right; by eexists].
  - rewrite strip_forms_go_app; [apply append_nil_r | done | done | right; by eexists].
  - rewrite strip_forms_go_app; [apply append_nil_r | done | done | right; by eexists].
  - rewrite strip_forms_go_app; [apply append_nil_r | done | done | right; by eexists].
Qed.

Lemma strip_forms_base_species_witness :
  PyStr.contains "-Mega" "Rotom-Wash" = false ∧
  PyStr.contains "-Primal" "Rotom-Wash" = false ∧
  PyStr.strip_forms "Rotom-Wash" = "Rotom-Wash" ∧
  PyStr.strip_forms ("Rotom-Wash" ++ "-Mega") = "Rotom-Wash" ∧
  PyStr.strip_forms ("Rotom-Wash" ++ "-Mega-X") = "Rotom-Wash" ∧
  PyStr.strip_forms ("Rotom-Wash" ++ "-Mega-Y") = "Rotom-Wash" ∧
  PyStr.strip_forms ("Rotom-Wash" ++ "-Primal") = "Rotom-Wash".
Proof.
  split; [reflexivity |]. split; [reflexivity |].
  exact (strip_forms_base_species "Rotom-Wash" eq_refl eq_refl).
Defined.

(** * The bot's helpers (robot.py) and more commands (commands.py) *)

(** ** Splitting and joining *)

Lemma contains_char_free (sep : ascii) (s : string) :
  PyStr.contains (String sep "") s = negb (PyStr2.free_of sep s).
Proof.
  induction s as [|a s IH]; [done |].
  cbn -[Ascii.eqb]. rewrite IH, (Ascii.eqb_sym a sep).
  by destruct (Ascii.eqb sep a).
Qed.

Lemma free_of_app (sep : ascii) (a b : string) :
  PyStr2.free_of sep (a ++ b) = PyStr2.free_of sep a && PyStr2.free_of sep b.
Proof.
  induction a as [|x a IH]; [done |].
  rewrite append_cons. cbn -[Ascii.eqb]. rewrite IH. by rewrite andb_assoc.
Qed.

Lemma free_of_rev_app (sep : ascii) (cur t : string) :
  PyStr2.free_of sep (String.rev_app cur t)
  = PyStr2.free_of sep cur && PyStr2.free_of sep t.
Proof.
  revert t. induction cur as [|c cur IH]; intros t; [done |].
  cbn -[Ascii.eqb]. rewrite IH. cbn -[Ascii.eqb].
  destruct (Ascii.eqb c sep), (PyStr2.free_of sep cur); done.
Qed.

Lemma split_go_fields_free (sep : ascii) (s cur : string) :
  PyStr2.free_of sep cur = true →
  Forall (λ f, PyStr2.free_of sep f = true) (PyStr.split_go sep cur s).
Proof.
  revert cur. induction s as [|c s IH]; intros cur Hcur; cbn -[Ascii.eqb].
  - constructor; [| constructor].
    unfold String.rev. by rewrite free_of_rev_app, Hcur.
  - destruct (Ascii.eqb c sep) eqn:E.
    + constructor; [| by apply IH].
      unfold String.rev. by rewrite free_of_rev_app, Hcur.
    + apply IH. cbn -[Ascii.eqb]. by rewrite E.
Qed.

Lemma split_go_nonempty (sep : ascii) (s cur : string) :
  PyStr.split_go sep cur s ≠ [].
Proof. destruct (split_go_head sep s cur) as [rest ->]. done. Qed.

Lemma join_cons (sep x : string) (xs : list string) :
  xs ≠ [] → PyStr2.join sep (x :: xs) = x ++ sep ++ PyStr2.join sep xs.
Proof. by destruct xs. Qed.

Lemma join_split_go (sep : ascii) (s cur : string) :
  PyStr2.join (String sep "") (PyStr.split_go sep cur s) = String.rev cur ++ s.
Proof.
  revert cur. induction s as [|c s IH]; intros cur; cbn -[Ascii.eqb].
  - by rewrite append_nil_r.
  - destruct (Ascii.eqb_spec c sep) as [-> | Hne].
    + rewrite join_cons by apply split_go_nonempty. rewrite IH.
      by rewrite append_cons.
    + rewrite IH. by rewrite rev_cons_append.
Qed.

Lemma split_go_free (sep : ascii) (s cur : string) :
  PyStr2.free_of sep s = true →
  PyStr.split_go sep cur s = [String.rev cur ++ s].
Proof.
  revert cur. induction s as [|c s IH]; intros cur; cbn -[Ascii.eqb].
  - by rewrite append_nil_r.
  - intros [Hc Hs]%andb_true_iff. apply negb_true_iff in Hc. rewrite Hc.
    rewrite IH by done. by rewrite rev_cons_append.
Qed.

(** [split] and [join] are inverse to each other on a line, and no field
    contains the separator. *)
Lemma split_join (sep : ascii) (s : string) :
  PyStr2.join (String sep "") (PyStr.split sep s) = s ∧
  Forall (λ f, PyStr.contains (String sep "") f = false) (PyStr.split sep s).
Proof.
  split; [apply join_split_go |].
  eapply Forall_impl; [by apply (split_go_fields_free sep s "") |].
  intros f Hf. simpl in Hf. by rewrite contains_char_free, Hf.
Qed.

(** ** [toId] *)

Lemma id_char_lower (c : ascii) :
  Robot.id_char c = true →
  Robot.id_char (PyStr2.lower_char c) = true ∧
  PyStr2.lower_char (PyStr2.lower_char c) = PyStr2.lower_char c ∧
  Ascii.eqb (PyStr2.lower_char c) " " = false.
Proof.
  destruct c as [[] [] [] [] [] [] [] []]; vm_compute; intros H;
    first [discriminate H | done].
Qed.

Lemma toId_cons (c : ascii) (s : string) :
  Robot.toId (String c s) =
    if Robot.id_char c then String (PyStr2.lower_char c) (Robot.toId s)
    else Robot.toId s.
Proof. unfold Robot.toId. cbn [PyStr2.keep]. by destruct (Robot.id_char c). Qed.

(** X18: [toId] is idempotent, and an id holds no upper-case letter and no
    space. *)
Theorem toId_idempotent (s : string) :
  Robot.toId (Robot.toId s) = Robot.toId s ∧
  PyStr2.lower (Robot.toId s) = Robot.toId s ∧
  PyStr.contains " " (Robot.toId s) = false.
Proof.
  rewrite contains_char_free.
  induction s as [|c s (IH1 & IH2 & IH3)]; [done |].
  rewrite toId_cons. destruct (Robot.id_char c) eqn:Hc; [| done].
  destruct (id_char_lower c Hc) as (Hk & Hl & Hsp).
  rewrite toId_cons, Hk, Hl, IH1. split; [done |]. split.
  - cbn [PyStr2.lower]. by rewrite Hl, IH2.
  - cbn [PyStr2.free_of]. rewrite Hsp. simpl.
    by destruct (PyStr2.free_of " " (Robot.toId s)).
Qed.

(** ** [escapeText] *)

(** X19: An escaped line is not read as a command: it does not start with [!],
    and if it starts with [/] it starts with [//]; the line itself is kept
    at the end. *)
Theorem escapeText_not_a_command (line : string) :
  PyStr.startswith "!" (Robot.escapeText line) = false ∧
  (PyStr.startswith "/" (Robot.escapeText line) = true →
   PyStr.startswith "//" (Robot.escapeText line) = true) ∧
  (Robot.escapeText line = line ∨
   Robot.escapeText line = "/" ++ line ∨
   Robot.escapeText line = " " ++ line).
Proof.
  destruct line as [|c line]; [by split_and!; [| | left] |].
  unfold Robot.escapeText.
  destruct (Ascii.eqb_spec c "/") as [-> | Hslash].
  - split_and!; [done | done | right; by left].
  - destruct (Ascii.eqb_spec c "!") as [-> | Hbang].
    + split_and!; [done | done | right; by right].
    + split_and!; [| | by left].
      * cbn -[Ascii.eqb]. destruct (Ascii.eqb_spec "!" c) as [<- | _]; done.
      * cbn -[Ascii.eqb]. destruct (Ascii.eqb_spec "/" c) as [<- | _]; done.
Qed.

(** ** [say], [sendPm], [reply] and [leaveRoom] *)

Section BotFacts.

Variable Room : Type.

Lemma foldl_send (p : string → string) (l : list string) (b : Robot.bot Room) :
foldl (λ b m, Robot.send Room (p m) b) b l
= Robot.Bot Room (Robot.owner Room b) (Robot.rooms Room b)
    (Robot.outbox Room b ++ (p <$> l)).
Proof.
revert b. induction l as [|m l IH]; intros b; simpl.
- rewrite app_nil_r. by destruct b.
- rewrite IH. simpl. by rewrite <- app_assoc.
Qed.

Lemma split_without_sep (sep : ascii) (s : string) :
PyStr.contains (String sep "") s = false → PyStr.split sep s = [s].
Proof.
rewrite contains_char_free. intros H%negb_false_iff.
unfold PyStr.split. by rewrite split_go_free.
Qed.

(** X20: [reply] sends the response line by line: one line for each piece between
  line feeds, in order, to the room or as a private message; no piece holds
  a line feed, and the pieces joined by line feeds are the response. *)
Theorem reply_sends_each_line (room user_id response : string) (samePlace : bool)
  (b : Robot.bot Room) :
let pieces := PyStr.split Robot.LF response in
let prefix := if samePlace then room ++ "|" else "|/pm " ++ user_id ++ ", " in
Robot.reply Room room user_id response samePlace b
= Robot.Bot Room (Robot.owner Room b) (Robot.rooms Room b)
    (Robot.outbox Room b ++ ((λ m, prefix ++ m) <$> pieces)) ∧
Forall (λ m, PyStr.contains (String Robot.LF "") m = false) pieces ∧
PyStr2.join (String Robot.LF "") pieces = response.
Proof.
intros pieces prefix.
destruct (split_join Robot.LF response) as [Hjoin Hfree].
split; [| by split].
unfold Robot.reply, Robot.say, Robot.sendPm, prefix.
destruct samePlace;
  destruct (PyStr.contains (String Robot.LF "") response) eqn:E.
- rewrite foldl_send. do 2 f_equal.
  apply list_fmap_ext. intros _ m _. by rewrite append_assoc.
- subst pieces. rewrite (split_without_sep _ _ E). unfold Robot.send. simpl.
  by rewrite append_assoc.
- rewrite foldl_send. do 2 f_equal.
  apply list_fmap_ext. intros _ m _. by rewrite !append_assoc.
- subst pieces. rewrite (split_without_sep _ _ E). unfold Robot.send. simpl.
  by rewrite !append_assoc.
Qed.

(** X17: After the [leave] command the bot is not in the room named by the
  message without its spaces, and every other room is as before; a line
  [|/leave room] is sent exactly when the bot was in the room; the reply is
  always private; and the same command again reports failure and changes
  nothing. *)
Theorem leave_command_once (msg : string) (b : Robot.bot Room) :
let room := PyStr2.remove_spaces msg in
let out := Robot.Command_leave Room msg b in
let new : list string :=
  if bool_decide (room ∈ dom (Robot.rooms Room b)) then ["|/leave " ++ room] else [] in
(room ∉ dom (Robot.rooms Room (out.2))) ∧
(∀ other, other ≠ room →
   Robot.rooms Room (out.2) !! other = Robot.rooms Room b !! other) ∧
Robot.outbox Room (out.2) = app (Robot.outbox Room b) new ∧
(out.1).2 = false ∧
Robot.Command_leave Room msg (out.2)
= (("Could not leave room: " ++ room, false), (out.2)).
Proof.
intros room out new. subst out new. unfold Robot.Command_leave, Robot.leaveRoom.
fold room.
case_bool_decide as Hin; simpl.
- split_and!; [| | done | done |].
  + rewrite dom_delete_L. set_solver.
  + intros other Hne. by rewrite lookup_delete_ne.
  + rewrite bool_decide_false; [done |]. rewrite dom_delete_L. set_solver.
- split_and!; [done | done | by rewrite app_nil_r | done |].
  by rewrite bool_decide_false.
Qed.

End BotFacts.

(** ** [pick] and the rank checks *)

Lemma split_length_pos (sep : ascii) (s : string) :
  (0 < length (PyStr.split sep s))%nat.
Proof.
  unfold PyStr.split. destruct (split_go_head sep s "") as [rest ->]. simpl. lia.
Qed.

(** X15: [pick] never raises: it answers with one of the comma-separated options
    of the message, in the room; and every option is the answer for some
    draw. *)
Theorem pick_answers_with_an_option (msg : string) :
  (∀ raw, ∃ o, Command_pick msg raw = Ok (o, true) ∧ o ∈ PyStr.split "," msg) ∧
  (∀ o, o ∈ PyStr.split "," msg → ∃ raw, Command_pick msg raw = Ok (o, true)).
Proof.
  pose proof (split_length_pos "," msg) as Hpos.
  set (options := PyStr.split "," msg) in *.
  assert (∀ raw, Command_pick msg raw =
                 match options !! (raw `mod` length options)%nat with
                 | Some o => Ok (o, true)
                 | None => Raise IndexError
                 end) as Hpick.
  { intros raw. unfold Command_pick, randint. fold options.
    destruct (Z.ltb_spec (Z.of_nat (length options) - 1) 0) as [|_]; [lia |].
    cbn -[Z.modulo Nat.modulo list_index].
    replace (0 + Z.of_nat raw `mod` (Z.of_nat (length options) - 1 - 0 + 1))%Z
      with (Z.of_nat (raw `mod` length options))
      by (rewrite Nat2Z.inj_mod, Z.add_0_l; f_equal; lia).
    rewrite list_index_nat. by destruct (options !! _). }
  split.
  - intros raw. rewrite Hpick.
    destruct (lookup_lt_is_Some_2 options (raw `mod` length options)) as [o Ho].
    { apply Nat.mod_upper_bound. lia. }
    rewrite Ho. exists o. split; [done |]. by eapply list_elem_of_lookup_2.
  - intros o [i Hi]%list_elem_of_lookup. exists i. rewrite Hpick.
    rewrite Nat.mod_small by (by eapply lookup_lt_Some). by rewrite Hi.
Qed.

(** X16: The four rank checks are ordered as the ranks are: when the table gives
    [%], [@], [#] and [~] rising values, whoever may add users may change
    settings, whoever may change settings may start games, and whoever may
    start games may see the whitelist. *)
Theorem rank_checks_ordered (self : ranks) (user : gmap string string)
    (voice driver owner_rank admin : Z) :
  Groups self !! "%" = Some voice →
  Groups self !! "@" = Some driver →
  Groups self !! "#" = Some owner_rank →
  Groups self !! "~" = Some admin →
  (voice ≤ driver ≤ owner_rank)%Z → (owner_rank ≤ admin)%Z →
  (canAddUser self user = Ok true → canChange self user = Ok true) ∧
  (canChange self user = Ok true → canStartGame self user = Ok true) ∧
  (canStartGame self user = Ok true → canSee self user = Ok true).
Proof.
  intros Hv Hd Ho Ha Hle1 Hle2.
  unfold canAddUser, canChange, canStartGame, canSee, rank_check.
  destruct (getitem user "name") as [n|]; simpl; [| done].
  destruct (decide (n = master self)); [done |].
  destruct (getitem user "group") as [g|]; simpl; [| done].
  destruct (getitem (Groups self) g) as [have|]; simpl; [| done].
  unfold getitem. rewrite Hv, Hd, Ho, Ha. simpl.
  split_and!; intros [= H%Z.leb_le]; do 2 f_equal; apply Z.leb_le; lia.
Qed.

(** The master passes every rank check without the table being read. *)
Lemma master_passes (self : ranks) (user : gmap string string) :
  user !! "name" = Some (master self) →
  canSee self user = Ok true ∧ canChange self user = Ok true ∧
  canAddUser self user = Ok true ∧ canStartGame self user = Ok true.
Proof.
  intros Hn. unfold canSee, canChange, canAddUser, canStartGame, rank_check, getitem.
  rewrite Hn. simpl. by destruct (decide _).
Qed.

(** * The message store (plugins/messages.py) *)

Section MessageFacts.

Variable Time : Type.
Variable epoch : Time.

(** X21: A message left for a user who has none waiting is accepted, is then
  reported as waiting and as already sent under the sender's id, and
  [removeMessage] at that id gives it back and leaves the table of messages
  as it was before. *)
Theorem add_then_remove_message (to sent msg : string)
  (db : Messages.MessageDatabase Time) :
Messages.messages Time db !! to = None →
let added := Messages.addMessage Time epoch to sent msg db in
added.1 = true ∧
Messages.hasMessage Time to (added.2) = true ∧
Messages.alreadySentMessage Time to (Robot.toId sent) (added.2) = true ∧
∃ db',
  Messages.removeMessage Time to (Robot.toId sent) (added.2)
  = Ok (Some (Messages.Msg sent msg), db') ∧
  Messages.messages Time db' = Messages.messages Time db.
Proof.
intros Hnone added. subst added. unfold Messages.addMessage.
rewrite (bool_decide_false (to ∈ dom (Messages.messages Time db)))
  by (by apply not_elem_of_dom).
rewrite lookup_insert_eq. simpl.
rewrite bool_decide_false by set_solver. simpl.
split_and!; [done | | |].
- unfold Messages.hasMessage. simpl. rewrite bool_decide_true; [done |].
  rewrite !dom_insert_L. set_solver.
- unfold Messages.alreadySentMessage. simpl. rewrite lookup_insert_eq.
  rewrite bool_decide_true; [done |]. rewrite dom_insert_L. set_solver.
- unfold Messages.removeMessage, getitem. simpl. rewrite lookup_insert_eq. simpl.
  rewrite lookup_insert_eq, delete_insert_eq, delete_empty.
  rewrite map_size_empty. simpl.
  eexists. split; [reflexivity |]. simpl.
  rewrite !insert_insert_eq, delete_insert_eq.
  by apply delete_id.
Qed.


End MessageFacts.

(** * The further properties on the scenario and the sample catalogue *)

Lemma parse_keeps_other_sessions_witness :
  "room1" ≠ "room2" ∧
  activeBattles (runM (parse Scenario.json_loads Scenario.py_format 0 "room2"
                         "|init|battle") Scenario.ready).2 !! "room1"
  = activeBattles Scenario.ready !! "room1".
Proof.
  assert ("room1" ≠ "room2") as Hne by discriminate.
  split; [exact Hne |].
  exact (parse_keeps_other_sessions Scenario.json_loads Scenario.py_format
           "room2" 0 "|init|battle" Scenario.ready "room1" Hne).
Defined.

Lemma parse_never_removes_session_witness :
  tracked "room1" Scenario.ready ∧
  tracked "room1"
    (runM (parse Scenario.json_loads Scenario.py_format 0 "room1" "|win|BotName")
          Scenario.ready).2.
Proof.
  split; [exact ready_tracked |].
  exact (parse_never_removes_session Scenario.json_loads Scenario.py_format
           "room1" 0 "|win|BotName" Scenario.ready "room1" ready_tracked).
Defined.

Lemma parse_raises_before_sending_witness :
  (runM (parse Scenario.json_loads Scenario.py_format 1 "room1" "|turn|1")
        Scenario.ready).1 = Raise IndexError ∧
  sent (runM (parse Scenario.json_loads Scenario.py_format 1 "room1" "|turn|1")
             Scenario.ready).2 = sent Scenario.ready.
Proof.
  assert ((runM (parse Scenario.json_loads Scenario.py_format 1 "room1" "|turn|1")
                Scenario.ready).1 = Raise IndexError) as Hraise
    by (vm_compute; reflexivity).
  split; [exact Hraise |].
  exact (parse_raises_before_sending Scenario.json_loads Scenario.py_format
           "room1" 1 "|turn|1" Scenario.ready IndexError Hraise).
Defined.

Lemma parse_silent_tags_witness :
  tag_of "|player|p2|Rival" = Ok "player" ∧
  sent (runM (parse Scenario.json_loads Scenario.py_format 0 "room1"
                "|player|p2|Rival") Scenario.ready).2 = sent Scenario.ready.
Proof.
  split; [reflexivity |].
  apply (parse_silent_tags Scenario.json_loads Scenario.py_format 0 "room1"
           "|player|p2|Rival" Scenario.ready "player"); [reflexivity |].
  apply elem_of_cons. right. apply elem_of_cons. right.
  apply elem_of_cons. left. reflexivity.
Defined.

Lemma init_battle_creates_session_witness :
  ¬ tracked "room2" Scenario.ready ∧
  is_init_battle "|init|battle" ∧
  runM (parse Scenario.json_loads Scenario.py_format 0 "room2" "|init|battle")
       Scenario.ready
  = (Ok (), Handler (botName Scenario.ready)
              (<["room2" := Battle.new "room2"]> (activeBattles Scenario.ready))
              (sent Scenario.ready ++ ["room2|/timer"])).
Proof.
  assert (is_init_battle "|init|battle") as Hi by (split; reflexivity).
  split; [exact ready_room2_untracked |]. split; [exact Hi |].
  exact (proj1 (init_battle_creates_session Scenario.json_loads Scenario.py_format
                  0 0 "room2" "|init|battle" Scenario.ready
                  ready_room2_untracked Hi)).
Defined.


Lemma returned_team_is_full_witness :
  size ({["Charizard-Mega-X"; "Swampert"; "Ferrothorn"; "Charizard";
          "Clefable"; "Skarmory"]} : gset string) = TEAM_SIZE ∧
  ∀ p, p ∈ ({["Charizard-Mega-X"; "Swampert"; "Ferrothorn"; "Charizard";
              "Clefable"; "Skarmory"]} : gset string) → p ∈ Runs.mixed_pool.
Proof.
  exact (returned_team_is_full Sample.Types Sample.Pokedex Runs.mixed_pool
           Runs.mixed_draws _ _ mixed_run).
Defined.


Lemma single_member_acceptable_witness :
  acceptableWeakness Sample.Types Sample.Pokedex {["Tyranitar"]} = Ok true.
Proof.
  apply single_member_acceptable.
  apply cataloguedb_sound. vm_compute. reflexivity.
Defined.

Lemma unlisted_member_never_answered_witness :
  ∃ e, acceptableWeakness Sample.Types Sample.Pokedex {["Arcanine"; "MissingNo"]}
       = Raise e.
Proof.
  apply (unlisted_member_never_answered Sample.Types Sample.Pokedex
           {["Arcanine"; "MissingNo"]} "MissingNo").
  - apply elem_of_union. right. by apply elem_of_singleton.
  - vm_compute. reflexivity.
Defined.

Lemma rank_checks_ordered_witness :
  (canAddUser sample_ranks {["name" := "someone"; "group" := "#"]} = Ok true →
   canChange sample_ranks {["name" := "someone"; "group" := "#"]} = Ok true) ∧
  (canChange sample_ranks {["name" := "someone"; "group" := "#"]} = Ok true →
   canStartGame sample_ranks {["name" := "someone"; "group" := "#"]} = Ok true) ∧
  (canStartGame sample_ranks {["name" := "someone"; "group" := "#"]} = Ok true →
   canSee sample_ranks {["name" := "someone"; "group" := "#"]} = Ok true).
Proof.
  apply (rank_checks_ordered sample_ranks _ 2 3 5 6);
    first [reflexivity | lia].
Defined.

Lemma add_then_remove_message_witness :
  let added := Messages.addMessage nat 0%nat "bob" "Alice B" "hello"
                 (Messages.empty nat) in
  added.1 = true ∧
  Messages.hasMessage nat "bob" (added.2) = true ∧
  Messages.alreadySentMessage nat "bob" (Robot.toId "Alice B") (added.2) = true ∧
  ∃ db',
    Messages.removeMessage nat "bob" (Robot.toId "Alice B") (added.2)
    = Ok (Some (Messages.Msg "Alice B" "hello"), db') ∧
    Messages.messages nat db' = Messages.messages nat (Messages.empty nat).
Proof.
  apply (add_then_remove_message nat 0%nat "bob" "Alice B" "hello" (Messages.empty nat)).
  reflexivity.
Defined.


